(** * SCface database query layer (xbob/db/scface/query.py)

    A shallow embedding of the [Database] class of [query.py]: the selector
    validator, the client and file selectors, the cohort selectors, the
    protocol lookups and the path mapper, together with the properties the
    specification states about them.

    Python values are embedded as follows: identifiers and birth years are
    [Z], names and labels are [string], tuples and lists are [list], an
    optional "scalar or sequence" argument is an [arg], a raised exception is
    the [Err] case of [result]. *)

From Stdlib Require Import List ZArith String Bool Lia Permutation Sorted.
From Stdlib Require OrderedTypeEx.
Import ListNotations.

Open Scope string_scope.
Open Scope Z_scope.
Open Scope list_scope.

(** ** Exceptions and the error monad *)

(** A Python value as it is printed in an error message. *)
Inductive pyval : Type :=
  | PyStr (s : string)
  | PyInt (z : Z).

(** The exceptions the methods of [Database] can raise.
    - [UninitializedStore]: the [RuntimeError] of [assert_validity];
    - [InvalidSelector obj k valid]: the [RuntimeError] of
      [__check_validity__], with the three values its message is built from;
    - [AttributeError]: [self.session.query] when [self.session] is [None];
    - [UnboundLocalError x]: the local variable [x] is read before it was
      ever assigned;
    - [NameError x]: the name [x], which the function never assigns and
      which is therefore looked up among the globals of the module, is bound
      there to nothing;
    - [NoResultFound], [MultipleResultsFound]: the exceptions of [Query.one]. *)
Inductive error : Type :=
  | UninitializedStore
  | InvalidSelector (obj : string) (k : pyval) (valid : list pyval)
  | AttributeError
  | UnboundLocalError (x : string)
  | NameError (x : string)
  | NoResultFound
  | MultipleResultsFound.

Inductive result (A : Type) : Type :=
  | Ok (a : A)
  | Err (e : error).

Arguments Ok {A} a.
Arguments Err {A} e.

Definition bind {A B : Type} (m : result A) (k : A -> result B) : result B :=
  match m with
  | Ok a => k a
  | Err e => Err e
  end.

Notation "x <- m ;; k" := (bind m (fun x => k))
  (at level 61, m at next level, right associativity).
Notation "m ;; k" := (bind m (fun _ => k))
  (at level 61, right associativity).

(** ** Python values used as selectors *)

(** What [__check_validity__] needs of the values it is given: their truth
    value ([not l]), equality ([k not in valid]) and their printed form. *)
Class PyValue (A : Type) : Type := {
  truth : A -> bool;
  py_eqb : A -> A -> bool;
  py_eqb_eq : forall a b, py_eqb a b = true <-> a = b;
  repr : A -> pyval
}.

(** A string is false exactly when it is empty. *)
#[export] Instance PyValue_string : PyValue string := {|
  truth := fun s => negb (String.eqb s "");
  py_eqb := String.eqb;
  py_eqb_eq := String.eqb_eq;
  repr := PyStr
|}.

(** An integer is false exactly when it is zero. *)
#[export] Instance PyValue_Z : PyValue Z := {|
  truth := fun z => negb (Z.eqb z 0);
  py_eqb := Z.eqb;
  py_eqb_eq := Z.eqb_eq;
  repr := PyInt
|}.

(** [k in l] *)
Definition py_in {A : Type} `{PyValue A} (k : A) (l : list A) : bool :=
  existsb (py_eqb k) l.

(** An optional selection argument: [None], one value that is neither a
    tuple nor a list, or a tuple or list of values. *)
Inductive arg (A : Type) : Type :=
  | Absent
  | Scalar (a : A)
  | Seq (l : list A).

Arguments Absent {A}.
Arguments Scalar {A} a.
Arguments Seq {A} l.

(** [not l] *)
Definition py_not {A : Type} `{PyValue A} (l : arg A) : bool :=
  match l with
  | Absent => true
  | Scalar a => negb (truth a)
  | Seq xs => match xs with [] => true | _ :: _ => false end
  end.

(** ** [Database.__check_validity__] *)

Section CheckValidity.
Context {A : Type} `{PyValue A}.

(** [for k in l: if k not in valid: raise RuntimeError, ...] *)
Fixpoint check_each (l : list A) (obj : string) (valid : list A) : result unit :=
  match l with
  | [] => Ok tt
  | k :: l' =>
      if negb (py_in k valid)
      then Err (InvalidSelector obj (repr k) (map repr valid))
      else check_each l' obj valid
  end.

(** The body of [__check_validity__] on a tuple or list. *)
Definition check_validity_seq (l : list A) (obj : string) (valid default : list A)
  : result (list A) :=
  if py_not (Seq l) then Ok default
  else check_each l obj valid ;; Ok l.

(** [__check_validity__(l, obj, valid, default)].  On a value that is
    neither a tuple nor a list the source calls itself on [(l,)]; the
    call is unfolded here, see [check_validity_scalar]. *)
Definition check_validity (l : arg A) (obj : string) (valid default : list A)
  : result (list A) :=
  if py_not l then Ok default
  else match l with
       | Absent => Ok default
       | Scalar a => check_validity_seq [a] obj valid default
       | Seq xs => check_validity_seq xs obj valid default
       end.

End CheckValidity.

(** ** The catalogue *)

(** Modelled from the spec: the five entities of models.py, which is not part
    of the sources at hand.  A Client has an identifier, a group, a gender
    and a birth year. *)
Record Client : Type := {
  client_id : Z;
  client_sgroup : string;
  client_gender : string;
  client_birthyear : Z
}.

(** Modelled from the spec: a Subworld has a name and a set of member
    clients (the relationship [Client.subworld] of models.py, kept as the
    list of the member clients' identifiers). *)
Record Subworld : Type := {
  subworld_name : string;
  subworld_clients : list Z
}.

(** Modelled from the spec: a File has an identifier, the identifier of its
    owning client, a camera label, a distance label and a path stem. *)
Record File : Type := {
  file_id : Z;
  file_client_id : Z;
  file_camera : string;
  file_distance : string;
  file_path : string
}.

(** Modelled from the spec: a Protocol has a name. *)
Record Protocol : Type := {
  protocol_id : Z;
  protocol_name : string
}.

(** Modelled from the spec: a ProtocolPurpose is a (protocol, group, purpose)
    triple linked to the Files serving that role (the relationship
    [File.protocol_purposes] of models.py, kept as the list of the files'
    identifiers). *)
Record ProtocolPurpose : Type := {
  pp_protocol_id : Z;
  pp_sgroup : string;
  pp_purpose : string;
  pp_files : list Z
}.

(** The populated store: one list of rows per table, in storage order. *)
Record Store : Type := {
  tbl_client : list Client;
  tbl_subworld : list Subworld;
  tbl_file : list File;
  tbl_protocol : list Protocol;
  tbl_protocolpurpose : list ProtocolPurpose
}.

(** Modelled from the spec: [ProtocolPurpose.group_choices]. *)
Definition group_choices : list string := ["dev"; "eval"; "world"].

(** Modelled from the spec: [Client.gender_choices]. *)
Definition gender_choices : list string := ["m"; "f"].

(** Modelled from the spec: [ProtocolPurpose.purpose_choices]. *)
Definition purpose_choices : list string := ["train"; "enrol"; "probe"].

(** Modelled from the spec: [File.make_path], the concatenation of the
    prefix, the stored path stem and the suffix. *)
Definition make_path (k : File) (prefix suffix : string) : string :=
  String.append prefix (String.append (file_path k) suffix).

(** ** Relational queries *)

(** [a JOIN b ON on]: one row per matching pair, in the order of [l]. *)
Definition join {A B : Type} (on : A -> B -> bool) (l : list A) (r : list B)
  : list (A * B) :=
  flat_map (fun a => map (pair a) (filter (on a) r)) l.

(** Insertion of [x] into a list ordered by [leb]. *)
Fixpoint insert_by {A : Type} (leb : A -> A -> bool) (x : A) (l : list A) : list A :=
  match l with
  | [] => [x]
  | y :: l' => if leb x y then x :: l else y :: insert_by leb x l'
  end.

(** [ORDER BY]: the rows in ascending order of [leb]. *)
Definition order_by {A : Type} (leb : A -> A -> bool) (l : list A) : list A :=
  fold_right (insert_by leb) [] l.

(** The entities of a result, each once, at its first occurrence.  The
    session holds one Python object per primary key, so that the rows of one
    key are one object: both the ORM, which returns each object of a
    single-entity query once, and [set], which compares objects by identity,
    tell entities apart by [key]. *)
Fixpoint unique_by {A : Type} (key : A -> Z) (l : list A) : list A :=
  match l with
  | [] => []
  | x :: l' => x :: filter (fun y => negb (Z.eqb (key y) (key x))) (unique_by key l')
  end.

(** [bool(l)] of a tuple or list. *)
Definition nonempty {A : Type} (l : list A) : bool :=
  match l with [] => false | _ :: _ => true end.

(** [q.join(Subworld, Client.subworld).filter(Subworld.name.in_(subworld))]:
    the rows of [rows] once per subworld of the names [subworld] their client
    is a member of. *)
Definition join_subworld {R : Type} (client : R -> Client) (rows : list R)
  (tbl : list Subworld) (subworld : list string) : list R :=
  map fst
    (filter (fun r => py_in (subworld_name (snd r)) subworld)
       (join (fun r sw => py_in (client_id (client r)) (subworld_clients sw)) rows tbl)).

(** [list(q.order_by(Client.id))] of a query of Clients. *)
Definition fetch_clients (q : list Client) : list Client :=
  unique_by client_id (order_by (fun c d => Z.leb (client_id c) (client_id d)) q).

(** A row of [query(File).join(Client).join(ProtocolPurpose,
    File.protocol_purposes).join(Protocol)]. *)
Definition FileRow : Type := (File * Client * ProtocolPurpose * Protocol)%type.

Definition row_file (r : FileRow) : File := fst (fst (fst r)).
Definition row_client (r : FileRow) : Client := snd (fst (fst r)).
Definition row_pp (r : FileRow) : ProtocolPurpose := snd (fst r).
Definition row_protocol (r : FileRow) : Protocol := snd r.

Definition file_query (s : Store) : list FileRow :=
  join (fun r p => Z.eqb (pp_protocol_id (snd r)) (protocol_id p))
    (join (fun r pp => py_in (file_id (fst r)) (pp_files pp))
       (join (fun f c => Z.eqb (file_client_id f) (client_id c))
          (tbl_file s) (tbl_client s))
       (tbl_protocolpurpose s))
    (tbl_protocol s).

(** The order of [order_by(File.client_id, File.camera, File.distance,
    File.id)]: lexicographic on the four columns. *)
Definition file_leb (f g : File) : bool :=
  match Z.compare (file_client_id f) (file_client_id g) with
  | Lt => true
  | Gt => false
  | Eq =>
      match String.compare (file_camera f) (file_camera g) with
      | Lt => true
      | Gt => false
      | Eq =>
          match String.compare (file_distance f) (file_distance g) with
          | Lt => true
          | Gt => false
          | Eq => Z.leb (file_id f) (file_id g)
          end
      end
  end.

(** [list(q.order_by(File.client_id, File.camera, File.distance, File.id))]
    of a query of Files. *)
Definition fetch_files (q : list FileRow) : list File :=
  unique_by file_id (map row_file (order_by (fun r r' => file_leb (row_file r) (row_file r')) q)).

(** [q.one()] *)
Definition one {A : Type} (q : list A) : result A :=
  match q with
  | [] => Err NoResultFound
  | [a] => Ok a
  | _ :: _ :: _ => Err MultipleResultsFound
  end.

(** [q.count() != 0] *)
Definition count_nonzero {A : Type} (q : list A) : bool :=
  negb (Nat.eqb (List.length q) 0).

(** ** The [Database] class *)

(** [self.session] is [None] or an open session on the populated store. *)
Record Database : Type := {
  session : option Store
}.

(** The raw [groups] and [purposes] arguments of the methods are written
    [groups_] and [purposes_] below, the methods [groups] and [purposes]
    being in scope.

    [connect]: [sqlite_file] is the store found at [SQLITE_FILE], if that
    path exists. *)
Definition connect (sqlite_file : option Store) : Database :=
  match sqlite_file with
  | None => {| session := None |}
  | Some s => {| session := Some s |}
  end.

Definition is_valid (db : Database) : bool :=
  match session db with
  | Some _ => true
  | None => false
  end.

Definition assert_validity (db : Database) : result unit :=
  if negb (is_valid db) then Err UninitializedStore else Ok tt.

(** [self.session.query(...)]: an attribute access on [self.session]. *)
Definition session_query (db : Database) : result Store :=
  match session db with
  | Some s => Ok s
  | None => Err AttributeError
  end.

Definition groups : list string := group_choices.

Definition genders : list string := gender_choices.

Definition purposes : list string := purpose_choices.

Definition subworlds (db : Database) : result (list Subworld) :=
  assert_validity db ;;
  s <- session_query db ;;
  Ok (tbl_subworld s).

Definition subworld_names (db : Database) : result (list string) :=
  assert_validity db ;;
  l <- subworlds db ;;
  Ok (map subworld_name l).

Definition has_subworld (db : Database) (name : string) : result bool :=
  assert_validity db ;;
  s <- session_query db ;;
  Ok (count_nonzero (filter (fun w => String.eqb (subworld_name w) name) (tbl_subworld s))).

Definition protocols (db : Database) : result (list Protocol) :=
  assert_validity db ;;
  s <- session_query db ;;
  Ok (tbl_protocol s).

Definition protocol_names (db : Database) : result (list string) :=
  assert_validity db ;;
  l <- protocols db ;;
  Ok (map protocol_name l).

Definition has_protocol (db : Database) (name : string) : result bool :=
  assert_validity db ;;
  s <- session_query db ;;
  Ok (count_nonzero (filter (fun p => String.eqb (protocol_name p) name) (tbl_protocol s))).

Definition protocol (db : Database) (name : string) : result Protocol :=
  assert_validity db ;;
  s <- session_query db ;;
  one (filter (fun p => String.eqb (protocol_name p) name) (tbl_protocol s)).

Definition protocol_purposes (db : Database) : result (list ProtocolPurpose) :=
  assert_validity db ;;
  s <- session_query db ;;
  Ok (tbl_protocolpurpose s).

(** [range(1900,2050)] *)
Definition VALID_BIRTHYEARS : list Z := map Z.of_nat (seq 1900 150).

(** The first query of [clients], run when ["world" in groups]. *)
Definition clients_world (s : Store) (subworld gender : list string)
  (birthyear : list Z) : list Client :=
  let q := filter (fun c => String.eqb (client_sgroup c) "world") (tbl_client s) in
  let q := if nonempty subworld
           then join_subworld (fun c => c) q (tbl_subworld s) subworld
           else q in
  let q := if nonempty gender
           then filter (fun c => py_in (client_gender c) gender) q
           else q in
  let q := if nonempty birthyear
           then filter (fun c => py_in (client_birthyear c) birthyear) q
           else q in
  fetch_clients q.

(** The second query of [clients], run when ['dev' in groups or 'eval' in
    groups]. *)
Definition clients_other (s : Store) (groups gender : list string)
  (birthyear : list Z) : list Client :=
  let q := filter (fun c => negb (String.eqb (client_sgroup c) "world")
                            && py_in (client_sgroup c) groups) (tbl_client s) in
  let q := if nonempty gender
           then filter (fun c => py_in (client_gender c) gender) q
           else q in
  let q := if nonempty birthyear
           then filter (fun c => py_in (client_birthyear c) birthyear) q
           else q in
  fetch_clients q.

(** [retval] of [clients] at its [return], on the validated arguments. *)
Definition clients_retval (s : Store) (groups subworld gender : list string)
  (birthyear : list Z) : list Client :=
  let retval := [] in
  let retval := if py_in "world" groups
                then retval ++ clients_world s subworld gender birthyear
                else retval in
  let retval := if py_in "dev" groups || py_in "eval" groups
                then retval ++ clients_other s groups gender birthyear
                else retval in
  retval.

Definition clients (db : Database) (protocol groups_ subworld gender : arg string)
  (birthyear : arg Z) : result (list Client) :=
  assert_validity db ;;
  VALID_PROTOCOLS <- protocol_names db ;;
  let VALID_GROUPS := groups in
  VALID_SUBWORLDS <- subworld_names db ;;
  let VALID_GENDERS := genders in
  protocol <- check_validity protocol "protocol" VALID_PROTOCOLS VALID_PROTOCOLS ;;
  groups <- check_validity groups_ "group" VALID_GROUPS VALID_GROUPS ;;
  subworld <- check_validity subworld "subworld" VALID_SUBWORLDS [] ;;
  gender <- check_validity gender "gender" VALID_GENDERS [] ;;
  birthyear <- check_validity birthyear "birthyear" VALID_BIRTHYEARS [] ;;
  s <- session_query db ;;
  Ok (clients_retval s groups subworld gender birthyear).

(** The [groups] argument of [tclients], [zclients] is never read: it is of
    any type. *)
Definition tclients {G : Type} (db : Database) (protocol : arg string) (groups : G)
  : result (list Client) :=
  clients db protocol (Scalar "world") (Scalar "onethird") Absent Absent.

Definition zclients {G : Type} (db : Database) (protocol : arg string) (groups : G)
  : result (list Client) :=
  clients db protocol (Scalar "world") (Scalar "onethird") Absent Absent.

Definition models (db : Database) (protocol groups_ : arg string) : result (list Client) :=
  clients db protocol groups_ Absent Absent Absent.

Definition has_client_id (db : Database) (id : Z) : result bool :=
  assert_validity db ;;
  s <- session_query db ;;
  Ok (count_nonzero (filter (fun c => Z.eqb (client_id c) id) (tbl_client s))).

Definition client (db : Database) (id : Z) : result Client :=
  assert_validity db ;;
  s <- session_query db ;;
  one (filter (fun c => Z.eqb (client_id c) id) (tbl_client s)).

Definition tmodels {G : Type} (db : Database) (protocol : arg string) (groups : G)
  : result (list Client) :=
  tclients db protocol groups.

Definition get_client_id_from_model_id (model_id : Z) : Z := model_id.

(** ** Files *)

(** [model_ids] of [objects], [tobjects] and [zobjects] after
    [if(model_ids is None): model_ids = ()
     elif(not isinstance(model_ids,collections.Iterable)): model_ids = (model_ids,)]. *)
Definition normalize_model_ids (model_ids : arg Z) : list Z :=
  match model_ids with
  | Absent => []
  | Scalar m => [m]
  | Seq l => l
  end.

(** First branch of [objects]: the files of the world group. *)
Definition objects_world (s : Store) (protocol : list string) (model_ids : list Z)
  (subworld : list string) : list File :=
  let q := file_query s in
  let q := if nonempty subworld
           then join_subworld row_client q (tbl_subworld s) subworld
           else q in
  let q := filter (fun r => py_in (protocol_name (row_protocol r)) protocol
                            && String.eqb (pp_sgroup (row_pp r)) "world") q in
  let q := if nonempty model_ids
           then filter (fun r => py_in (client_id (row_client r)) model_ids) q
           else q in
  fetch_files q.

(** The filter shared by the three dev/eval branches:
    [and_(Protocol.name.in_(protocol), ProtocolPurpose.sgroup.in_(groups),
    ProtocolPurpose.purpose == purpose)]. *)
Definition purpose_filter (protocol groups : list string) (purpose : string)
  (r : FileRow) : bool :=
  py_in (protocol_name (row_protocol r)) protocol
  && py_in (pp_sgroup (row_pp r)) groups
  && String.eqb (pp_purpose (row_pp r)) purpose.

(** Second branch of [objects]: the enrol files. *)
Definition objects_enrol (s : Store) (protocol groups : list string)
  (model_ids : list Z) : list File :=
  let q := filter (purpose_filter protocol groups "enrol") (file_query s) in
  let q := if nonempty model_ids
           then filter (fun r => py_in (client_id (row_client r)) model_ids) q
           else q in
  fetch_files q.

(** Third branch of [objects]: the probe files of class client. *)
Definition objects_probe_client (s : Store) (protocol groups : list string)
  (model_ids : list Z) : list File :=
  let q := filter (purpose_filter protocol groups "probe") (file_query s) in
  let q := if nonempty model_ids
           then filter (fun r => py_in (client_id (row_client r)) model_ids) q
           else q in
  fetch_files q.

(** Fourth branch of [objects]: the probe files of class impostor. *)
Definition objects_probe_impostor (s : Store) (protocol groups : list string)
  (model_ids : list Z) : list File :=
  let q := filter (purpose_filter protocol groups "probe") (file_query s) in
  let q := if Nat.eqb (List.length model_ids) 1
           then filter (fun r => negb (py_in (file_client_id (row_file r)) model_ids)) q
           else q in
  fetch_files q.

(** [retval] of [objects] at its [return], on the validated arguments. *)
Definition objects_retval (s : Store) (protocol purposes : list string)
  (model_ids : list Z) (groups classes subworld : list string) : list File :=
  let retval := [] in
  let retval := if py_in "world" groups
                then retval ++ objects_world s protocol model_ids subworld
                else retval in
  let retval :=
    if py_in "dev" groups || py_in "eval" groups then
      let retval := if py_in "enrol" purposes
                    then retval ++ objects_enrol s protocol groups model_ids
                    else retval in
      let retval :=
        if py_in "probe" purposes then
          let retval := if py_in "client" classes
                        then retval ++ objects_probe_client s protocol groups model_ids
                        else retval in
          let retval := if py_in "impostor" classes
                        then retval ++ objects_probe_impostor s protocol groups model_ids
                        else retval in
          retval
        else retval in
      retval
    else retval in
  retval.

Section PythonSet.

(** [list(set(l))] on a list of Files.  A set of objects is iterated in the
    order of their hashes, which are their addresses: the function is left
    open, and is only known to return the distinct objects of [l], see
    [set_list_spec]. *)
Variable set_list : list File -> list File.

Definition objects (db : Database) (protocol purposes_ : arg string)
  (model_ids : arg Z) (groups_ classes subworld : arg string) : result (list File) :=
  assert_validity db ;;
  VALID_PROTOCOLS <- protocol_names db ;;
  let VALID_PURPOSES := purposes in
  let VALID_GROUPS := groups in
  let VALID_CLASSES := ["client"; "impostor"] in
  VALID_SUBWORLDS <- subworld_names db ;;
  protocol <- check_validity protocol "protocol" VALID_PROTOCOLS VALID_PROTOCOLS ;;
  purposes <- check_validity purposes_ "purpose" VALID_PURPOSES VALID_PURPOSES ;;
  groups <- check_validity groups_ "group" VALID_GROUPS VALID_GROUPS ;;
  classes <- check_validity classes "class" VALID_CLASSES VALID_CLASSES ;;
  subworld <- check_validity subworld "subworld" VALID_SUBWORLDS [] ;;
  let model_ids := normalize_model_ids model_ids in
  s <- session_query db ;;
  Ok (set_list (objects_retval s protocol purposes model_ids groups classes subworld)).

End PythonSet.

(** What is known of [list(set(l))]: it holds the objects of [l], each
    once, in some order. *)
Definition set_list_spec (set_list : list File -> list File) : Prop :=
  forall l, Permutation (set_list l) (unique_by file_id l).

(** The query of [tobjects] and [zobjects]: the files of the world group in
    the subworlds [subworld], taken by the cameras [validcam].  [Subworld] is
    joined through the client's membership, the one link of the data model
    between a subworld and the joined tables. *)
Definition cohort_files (s : Store) (protocol : list string) (model_ids : list Z)
  (subworld validcam : list string) : list File :=
  let q := file_query s in
  let q := join_subworld row_client q (tbl_subworld s) subworld in
  let q := filter (fun r => py_in (protocol_name (row_protocol r)) protocol
                            && String.eqb (pp_sgroup (row_pp r)) "world"
                            && py_in (file_camera (row_file r)) validcam) q in
  let q := if nonempty model_ids
           then filter (fun r => py_in (client_id (row_client r)) model_ids) q
           else q in
  fetch_files q.

Definition tobjects (db : Database) (protocol : arg string) (model_ids : arg Z)
  (groups_ : arg string) : result (list File) :=
  VALID_PROTOCOLS <- protocol_names db ;;
  let VALID_GROUPS := groups in
  let subworld := ["onethird"] in
  let validcam := ["frontal"] in
  protocol <- check_validity protocol "protocol" VALID_PROTOCOLS VALID_PROTOCOLS ;;
  groups <- check_validity groups_ "group" VALID_GROUPS VALID_GROUPS ;;
  let model_ids := normalize_model_ids model_ids in
  s <- session_query db ;;
  let retval := [] in
  let retval := retval ++ cohort_files s protocol model_ids subworld validcam in
  Ok retval.

Definition zobjects (db : Database) (protocol : arg string) (model_ids : arg Z)
  (groups_ : arg string) : result (list File) :=
  VALID_PROTOCOLS <- protocol_names db ;;
  let VALID_GROUPS := groups in
  let subworld := ["onethird"] in
  let validcam := ["cam1"; "cam2"; "cam3"; "cam4"; "cam5"] in
  protocol <- check_validity protocol "protocol" VALID_PROTOCOLS VALID_PROTOCOLS ;;
  groups <- check_validity groups_ "group" VALID_GROUPS VALID_GROUPS ;;
  let model_ids := normalize_model_ids model_ids in
  s <- session_query db ;;
  let retval := [] in
  let retval := retval ++ cohort_files s protocol model_ids subworld validcam in
  Ok retval.

(** ** Paths *)

(** A local variable holding a list: [None] until it is first assigned. *)
Definition local (B : Type) : Type := option (list B).

(** [x.extend(l)] on the local variable [x]. *)
Definition extend {B : Type} (x : string) (v : local B) (l : list B) : result (local B) :=
  match v with
  | Some r => Ok (Some (r ++ l))
  | None => Err (UnboundLocalError x)
  end.

(** [for p in ps: retval.extend(body(p))] *)
Fixpoint extend_each {A B : Type} (body : A -> list B) (ps : list A) (retval : local B)
  : result (local B) :=
  match ps with
  | [] => Ok retval
  | p :: ps' => retval' <- extend "retval" retval (body p) ;; extend_each body ps' retval'
  end.

(** [return x] of the local variable [x]. *)
Definition read_local {B : Type} (x : string) (v : local B) : result (list B) :=
  match v with
  | Some r => Ok r
  | None => Err (UnboundLocalError x)
  end.

(** [[k.make_path(prefix, suffix) for k in fobj if k.id == p]] *)
Definition paths_of (fobj : list File) (prefix suffix : string) (p : Z) : list string :=
  map (fun k => make_path k prefix suffix) (filter (fun k => Z.eqb (file_id k) p) fobj).

Definition paths (db : Database) (ids : list Z) (prefix suffix : string)
  : result (list string) :=
  assert_validity db ;;
  s <- session_query db ;;
  let fobj := filter (fun k => py_in (file_id k) ids) (tbl_file s) in
  let retval := Some [] in
  retval <- extend_each (paths_of fobj prefix suffix) ids retval ;;
  read_local "retval" retval.

(** [self.session.query(File).filter(File.path.in_(paths))] *)
Definition reverse_fobj (s : Store) (paths : list string) : list File :=
  filter (fun k => py_in (file_path k) paths) (tbl_file s).

(** [[k.id for k in fobj if k.path == p]] *)
Definition reverse_ids (fobj : list File) (p : string) : list Z :=
  map file_id (filter (fun k => String.eqb (file_path k) p) fobj).

(** What the module of [query.py] binds the name [retval] to at its top
    level, if anything (a list of identifiers, when it does).  [query.py]
    binds no such name itself; the one other source of names of the module is
    [from .models import *], of a module that is not at hand. *)
Definition module_retval : Type := option (list Z).

(** The name [x] read as a global of the module. *)
Definition read_global {B : Type} (x : string) (g : option B) : result B :=
  match g with
  | Some v => Ok v
  | None => Err (NameError x)
  end.

(** [for p in ps: retval.extend(body(p))] where [retval] is a global name:
    the list the name is bound to is extended in place. *)
Fixpoint extend_each_global {A B : Type} (body : A -> list B) (ps : list A)
  (g : option (list B)) : result (option (list B)) :=
  match ps with
  | [] => Ok g
  | p :: ps' =>
      retval <- read_global "retval" g ;;
      extend_each_global body ps' (Some (retval ++ body p))
  end.

(** [reverse] assigns [retval] nowhere: the name is not a local variable of
    the function but a global of the module, given here as [g]. *)
Definition reverse (g : module_retval) (db : Database) (paths : list string)
  : result (list Z) :=
  assert_validity db ;;
  s <- session_query db ;;
  let fobj := reverse_fobj s paths in
  g <- extend_each_global (reverse_ids fobj) paths g ;;
  read_global "retval" g.

(** ** Reading the catalogue

    The definitions below are not part of [query.py]: they say, on the
    tables, what the statements about the queries speak of. *)

(** The file of identifier [p], if the store has one. *)
Definition file_of_id (s : Store) (p : Z) : option File :=
  find (fun k => Z.eqb (file_id k) p) (tbl_file s).

(** The path [paths] is to return for the identifier [p]: none if no file
    has it. *)
Definition path_of_id (s : Store) (prefix suffix : string) (p : Z) : list string :=
  match file_of_id s p with
  | Some k => [String.append prefix (String.append (file_path k) suffix)]
  | None => []
  end.

(** The file [f] serves the purpose [purpose], for one of the groups
    [groups], under one of the protocols [protocol]. *)
Definition file_serves (s : Store) (protocol groups : list string) (purpose : string)
  (f : File) : Prop :=
  In f (tbl_file s)
  /\ exists c pp p,
       In c (tbl_client s) /\ file_client_id f = client_id c
       /\ In pp (tbl_protocolpurpose s) /\ In (file_id f) (pp_files pp)
       /\ In p (tbl_protocol s) /\ pp_protocol_id pp = protocol_id p
       /\ In (protocol_name p) protocol /\ In (pp_sgroup pp) groups
       /\ pp_purpose pp = purpose.

(** The client [c] is a member of a subworld of one of the names [names]. *)
Definition member_of (s : Store) (names : list string) (c : Client) : Prop :=
  exists w, In w (tbl_subworld s) /\ In (subworld_name w) names
            /\ In (client_id c) (subworld_clients w).

(** The client [c] meets the validated criteria: it is of one of the groups;
    of one of the genders and of the birth years, where some are given; and,
    if it is of the world group, a member of one of the subworlds, where
    some are given. *)
Definition client_selected (s : Store) (groups subworld gender : list string)
  (birthyear : list Z) (c : Client) : Prop :=
  In c (tbl_client s)
  /\ In (client_sgroup c) groups
  /\ (gender <> [] -> In (client_gender c) gender)
  /\ (birthyear <> [] -> In (client_birthyear c) birthyear)
  /\ (subworld <> [] -> client_sgroup c = "world" -> member_of s subworld c).

(** The clients of the score-normalisation cohorts, in the words of the
    specification: the clients of the world group that are members of the
    subworld onethird. *)
Definition norm_cohort (s : Store) (c : Client) : Prop :=
  In c (tbl_client s) /\ client_sgroup c = "world" /\ member_of s ["onethird"] c.

(** Ascending client identifiers. *)
Definition ascending (l : list Client) : Prop :=
  StronglySorted (fun c d => client_id c < client_id d) l.

(** The files are in the order of [file_leb]. *)
Definition file_sorted (l : list File) : Prop :=
  StronglySorted (fun f g => file_leb f g = true) l.

(** The file [f] is an image of the world group under one of the protocols
    [protocol], taken by one of the cameras [cams], of a client that is a
    member of a subworld of one of the names [names]. *)
Definition cohort_file (s : Store) (protocol names cams : list string) (f : File) : Prop :=
  In f (tbl_file s)
  /\ In (file_camera f) cams
  /\ exists c pp p,
       In c (tbl_client s) /\ file_client_id f = client_id c
       /\ In pp (tbl_protocolpurpose s) /\ In (file_id f) (pp_files pp)
       /\ In p (tbl_protocol s) /\ pp_protocol_id pp = protocol_id p
       /\ In (protocol_name p) protocol /\ pp_sgroup pp = "world"
       /\ member_of s names c.

(** ** A small catalogue *)

(** Two world clients, one in each subworld, two dev clients and one eval
    client; one frontal and one surveillance image of the world, enrol and
    probe images of dev and eval; the file 4 serves as a dev probe under both
    protocols. *)
Definition example_store : Store := {|
  tbl_client := [
    {| client_id := 1; client_sgroup := "world"; client_gender := "m"; client_birthyear := 1980 |};
    {| client_id := 2; client_sgroup := "world"; client_gender := "f"; client_birthyear := 1975 |};
    {| client_id := 3; client_sgroup := "dev"; client_gender := "m"; client_birthyear := 1985 |};
    {| client_id := 4; client_sgroup := "dev"; client_gender := "f"; client_birthyear := 1990 |};
    {| client_id := 5; client_sgroup := "eval"; client_gender := "m"; client_birthyear := 1970 |} ];
  tbl_subworld := [
    {| subworld_name := "onethird"; subworld_clients := [1] |};
    {| subworld_name := "twothirds"; subworld_clients := [2] |} ];
  tbl_file := [
    {| file_id := 1; file_client_id := 1; file_camera := "frontal"; file_distance := "0";
       file_path := "mugshot/001_frontal" |};
    {| file_id := 2; file_client_id := 2; file_camera := "cam1"; file_distance := "1";
       file_path := "surveillance/002_cam1_1" |};
    {| file_id := 3; file_client_id := 3; file_camera := "frontal"; file_distance := "0";
       file_path := "mugshot/003_frontal" |};
    {| file_id := 4; file_client_id := 3; file_camera := "cam1"; file_distance := "1";
       file_path := "surveillance/003_cam1_1" |};
    {| file_id := 5; file_client_id := 4; file_camera := "cam1"; file_distance := "1";
       file_path := "surveillance/004_cam1_1" |};
    {| file_id := 6; file_client_id := 5; file_camera := "cam2"; file_distance := "2";
       file_path := "surveillance/005_cam2_2" |} ];
  tbl_protocol := [
    {| protocol_id := 1; protocol_name := "combined" |};
    {| protocol_id := 2; protocol_name := "close" |} ];
  tbl_protocolpurpose := [
    {| pp_protocol_id := 1; pp_sgroup := "world"; pp_purpose := "train"; pp_files := [1; 2] |};
    {| pp_protocol_id := 1; pp_sgroup := "dev"; pp_purpose := "enrol"; pp_files := [3] |};
    {| pp_protocol_id := 1; pp_sgroup := "dev"; pp_purpose := "probe"; pp_files := [4; 5] |};
    {| pp_protocol_id := 1; pp_sgroup := "eval"; pp_purpose := "probe"; pp_files := [6] |};
    {| pp_protocol_id := 2; pp_sgroup := "dev"; pp_purpose := "probe"; pp_files := [4] |} ]
|}.

Definition example_db : Database := connect (Some example_store).

(** * Properties *)

(** ** The error monad *)

Lemma bind_Ok {A B : Type} (m : result A) (k : A -> result B) (b : B) :
  bind m k = Ok b -> exists a, m = Ok a /\ k a = Ok b.
Proof.
  destruct m as [a | e]; simpl; intros Hk.
  - exists a. split; [reflexivity | exact Hk].
  - discriminate Hk.
Qed.

(** ** Membership *)

Lemma py_in_In {A : Type} `{PyValue A} (k : A) (l : list A) :
  py_in k l = true <-> In k l.
Proof.
  unfold py_in. rewrite existsb_exists. split.
  - intros [x [Hx Hk]]. apply py_eqb_eq in Hk. subst x. exact Hx.
  - intros Hk. exists k. split; [exact Hk | apply py_eqb_eq; reflexivity].
Qed.

Lemma py_in_false {A : Type} `{PyValue A} (k : A) (l : list A) :
  py_in k l = false <-> ~ In k l.
Proof.
  rewrite <- py_in_In. destruct (py_in k l); split; intros; congruence.
Qed.

Lemma nonempty_false {A : Type} (l : list A) : nonempty l = false -> l = [].
Proof. destruct l; [reflexivity | discriminate]. Qed.

(** ** The selector validator *)

Lemma check_each_Ok {A : Type} `{PyValue A} (l : list A) (obj : string) (valid : list A) :
  (forall k, In k l -> In k valid) -> check_each l obj valid = Ok tt.
Proof.
  induction l as [| k l IH]; simpl; intros Hl.
  - reflexivity.
  - assert (Hk : py_in k valid = true) by (apply py_in_In, Hl; left; reflexivity).
    rewrite Hk. simpl. apply IH. intros k' Hk'. apply Hl. right. exact Hk'.
Qed.

Lemma check_each_Err {A : Type} `{PyValue A} (l : list A) (obj : string) (valid : list A) :
  (exists k, In k l /\ ~ In k valid) ->
  exists k, In k l /\ ~ In k valid /\
            check_each l obj valid = Err (InvalidSelector obj (repr k) (map repr valid)).
Proof.
  induction l as [| x l IH]; simpl; intros [k [Hk Hv]].
  - contradiction.
  - destruct (py_in x valid) eqn:Hx; simpl.
    + destruct Hk as [Hk | Hk].
      * subst x. apply py_in_In in Hx. contradiction.
      * destruct IH as [k' [Hk' [Hv' He]]]; [exists k; split; assumption |].
        exists k'. split; [right; exact Hk' | split; assumption].
    + exists x. split; [left; reflexivity | split; [| reflexivity]].
      apply py_in_false. exact Hx.
Qed.

Lemma check_each_first {A : Type} `{PyValue A} (l1 : list A) (k : A) (l2 : list A)
  (obj : string) (valid : list A) :
  (forall x, In x l1 -> In x valid) -> ~ In k valid ->
  check_each (l1 ++ k :: l2) obj valid
  = Err (InvalidSelector obj (repr k) (map repr valid)).
Proof.
  intros Hl1 Hk. induction l1 as [| x l1 IH]; simpl.
  - apply py_in_false in Hk. rewrite Hk. reflexivity.
  - assert (Hx : py_in x valid = true) by (apply py_in_In, Hl1; left; reflexivity).
    rewrite Hx. simpl. apply IH. intros y Hy. apply Hl1. right. exact Hy.
Qed.

(** The recursive call of the source: on a value [a] that is neither a tuple
    nor a list and is not false, [__check_validity__(a, ...)] is
    [__check_validity__((a,), ...)]. *)
Lemma check_validity_scalar {A : Type} `{PyValue A} (a : A) (obj : string)
  (valid default : list A) :
  py_not (Scalar a) = false ->
  check_validity (Scalar a) obj valid default = check_validity (Seq [a]) obj valid default.
Proof.
  intros Ha. unfold check_validity. rewrite Ha. reflexivity.
Qed.

(** C4, as the code has it.  An absent or empty input yields the default, and
    so does a value that is neither a tuple nor a list and is false (the
    empty string, the number zero), whatever the valid set; such a value
    that is true is treated as the tuple holding it; a non-empty tuple or
    list is returned as it is when all its elements are valid, and raises
    the Invalid Selector error built from the argument name, the first
    element that is not valid and the valid set otherwise: the element [k]
    of [l1 ++ k :: l2], when [l1] is valid and [k] is not, whatever [l2]. *)
Theorem check_validity_contract {A : Type} `{PyValue A} (obj : string)
  (valid default : list A) :
  check_validity Absent obj valid default = Ok default
  /\ check_validity (Seq []) obj valid default = Ok default
  /\ (forall a, truth a = false ->
        check_validity (Scalar a) obj valid default = Ok default)
  /\ (forall a, truth a = true ->
        check_validity (Scalar a) obj valid default
        = check_validity (Seq [a]) obj valid default)
  /\ (forall l, l <> [] -> (forall k, In k l -> In k valid) ->
        check_validity (Seq l) obj valid default = Ok l)
  /\ (forall l, l <> [] -> (exists k, In k l /\ ~ In k valid) ->
        exists k, In k l /\ ~ In k valid /\
          check_validity (Seq l) obj valid default
          = Err (InvalidSelector obj (repr k) (map repr valid)))
  /\ (forall l1 k l2, (forall x, In x l1 -> In x valid) -> ~ In k valid ->
        check_validity (Seq (l1 ++ k :: l2)) obj valid default
        = Err (InvalidSelector obj (repr k) (map repr valid))).
Proof.
  split; [reflexivity | split; [reflexivity |]].
  split; [| split; [| split; [| split]]].
  - intros a Ha. unfold check_validity. simpl. rewrite Ha. reflexivity.
  - intros a Ha. apply check_validity_scalar. simpl. rewrite Ha. reflexivity.
  - intros l Hne Hl. destruct l as [| x l]; [congruence |].
    unfold check_validity, check_validity_seq.
    cbn [py_not]. rewrite (check_each_Ok (x :: l) obj valid Hl). reflexivity.
  - intros l Hne Hl. destruct l as [| x l]; [congruence |].
    destruct (check_each_Err (x :: l) obj valid Hl) as [k [Hk [Hv He]]].
    exists k. split; [exact Hk | split; [exact Hv |]].
    unfold check_validity, check_validity_seq.
    cbn [py_not]. rewrite He. reflexivity.
  - intros l1 k l2 Hl1 Hk.
    assert (Hne : py_not (Seq (l1 ++ k :: l2)) = false) by (destruct l1; reflexivity).
    unfold check_validity, check_validity_seq. rewrite Hne.
    rewrite (check_each_first l1 k l2 obj valid Hl1 Hk). reflexivity.
Qed.

(** The contract at the group selector: the scalar ['world'] is returned as
    [('world',)], and the tuple [('dev', 'test', 'bogus')] is refused for
    ['test'], the first of its two values that are not groups. *)
Lemma check_validity_contract_witness :
  check_validity (Scalar "world") "group" groups groups = Ok ["world"]
  /\ (exists k, In k ["dev"; "test"] /\ ~ In k groups /\
        check_validity (Seq ["dev"; "test"]) "group" groups groups
        = Err (InvalidSelector "group" (repr k) (map repr groups)))
  /\ check_validity (Seq ["dev"; "test"; "bogus"]) "group" groups groups
     = Err (InvalidSelector "group" (PyStr "test") (map repr groups)).
Proof.
  destruct (check_validity_contract "group" groups groups)
    as [_ [_ [_ [Hscalar [Hok [Herr Hfirst]]]]]].
  split; [| split].
  - rewrite (Hscalar "world" eq_refl).
    apply Hok; [discriminate |].
    intros k [Hk | []]. subst k. vm_compute. tauto.
  - apply Herr; [discriminate |].
    exists "test". split; [right; left; reflexivity |].
    vm_compute. intros [Hk | [Hk | [Hk | []]]]; discriminate Hk.
  - apply (Hfirst ["dev"] "test" ["bogus"]).
    + intros x [Hx | []]. subst x. vm_compute. tauto.
    + vm_compute. intros [Hk | [Hk | [Hk | []]]]; discriminate Hk.
Defined.

(** C4, as stated, fails at the birth year [0]: it is not a valid birth year,
    yet the validator returns the default, where the tuple [(0,)] is
    refused. *)
Lemma check_validity_zero_counterexample :
  ~ In 0 VALID_BIRTHYEARS
  /\ check_validity (Scalar 0) "birthyear" VALID_BIRTHYEARS [] = Ok []
  /\ check_validity (Seq [0]) "birthyear" VALID_BIRTHYEARS []
     = Err (InvalidSelector "birthyear" (PyInt 0) (map repr VALID_BIRTHYEARS)).
Proof.
  split; [| split].
  - apply py_in_false. vm_compute. reflexivity.
  - vm_compute. reflexivity.
  - vm_compute. reflexivity.
Qed.

Lemma check_validity_Err {A : Type} `{PyValue A} (l : arg A) (obj : string)
  (valid default : list A) (e : error) :
  check_validity l obj valid default = Err e ->
  exists k, e = InvalidSelector obj k (map repr valid).
Proof.
  assert (Heach : forall xs, check_each xs obj valid = Err e ->
                             exists k, e = InvalidSelector obj k (map repr valid)).
  { induction xs as [| x xs IH]; simpl; [discriminate |].
    destruct (negb (py_in x valid)); [| exact IH].
    intros He. injection He as <-. eexists. reflexivity. }
  assert (Hseq : forall xs, check_validity_seq xs obj valid default = Err e ->
                            exists k, e = InvalidSelector obj k (map repr valid)).
  { intros xs. unfold check_validity_seq.
    destruct (py_not (Seq xs)); [discriminate |].
    destruct (check_each xs obj valid) as [u | e'] eqn:He; simpl; [discriminate |].
    intros He'. injection He' as ->. apply (Heach xs). exact He. }
  unfold check_validity. destruct (py_not l); [discriminate |].
  destruct l as [| a | xs]; [discriminate | apply Hseq | apply Hseq].
Qed.

(** ** An unreachable store *)

Ltac without_session H :=
  unfold assert_validity, is_valid; rewrite H; reflexivity.

(** C5.  When no session was opened, every method that reads the store
    raises the error of [assert_validity]; none reaches
    [self.session.query], which would raise [AttributeError]. *)
Theorem uninitialized_store_fails_fast (set_list : list File -> list File)
  (db : Database) :
  session db = None ->
  subworld_names db = Err UninitializedStore
  /\ subworlds db = Err UninitializedStore
  /\ (forall name, has_subworld db name = Err UninitializedStore)
  /\ (forall protocol groups_ subworld gender birthyear,
        clients db protocol groups_ subworld gender birthyear = Err UninitializedStore)
  /\ (forall (G : Type) protocol (groups_ : G),
        tclients db protocol groups_ = Err UninitializedStore)
  /\ (forall (G : Type) protocol (groups_ : G),
        zclients db protocol groups_ = Err UninitializedStore)
  /\ (forall protocol groups_, models db protocol groups_ = Err UninitializedStore)
  /\ (forall id, has_client_id db id = Err UninitializedStore)
  /\ (forall id, client db id = Err UninitializedStore)
  /\ (forall (G : Type) protocol (groups_ : G),
        tmodels db protocol groups_ = Err UninitializedStore)
  /\ (forall protocol purposes_ model_ids groups_ classes subworld,
        objects set_list db protocol purposes_ model_ids groups_ classes subworld
        = Err UninitializedStore)
  /\ (forall protocol model_ids groups_,
        tobjects db protocol model_ids groups_ = Err UninitializedStore)
  /\ (forall protocol model_ids groups_,
        zobjects db protocol model_ids groups_ = Err UninitializedStore)
  /\ protocol_names db = Err UninitializedStore
  /\ protocols db = Err UninitializedStore
  /\ (forall name, has_protocol db name = Err UninitializedStore)
  /\ (forall name, protocol db name = Err UninitializedStore)
  /\ protocol_purposes db = Err UninitializedStore
  /\ (forall ids prefix suffix, paths db ids prefix suffix = Err UninitializedStore)
  /\ (forall g ps, reverse g db ps = Err UninitializedStore).
Proof.
  intros H. repeat split; intros.
  - unfold subworld_names. without_session H.
  - unfold subworlds. without_session H.
  - unfold has_subworld. without_session H.
  - unfold clients. without_session H.
  - unfold tclients, clients. without_session H.
  - unfold zclients, clients. without_session H.
  - unfold models, clients. without_session H.
  - unfold has_client_id. without_session H.
  - unfold client. without_session H.
  - unfold tmodels, tclients, clients. without_session H.
  - unfold objects. without_session H.
  - unfold tobjects, protocol_names. without_session H.
  - unfold zobjects, protocol_names. without_session H.
  - unfold protocol_names. without_session H.
  - unfold protocols. without_session H.
  - unfold has_protocol. without_session H.
  - unfold protocol. without_session H.
  - unfold protocol_purposes. without_session H.
  - unfold paths. without_session H.
  - unfold reverse. without_session H.
Qed.

(** The database connected while [SQLITE_FILE] does not exist. *)
Lemma uninitialized_store_fails_fast_witness :
  session (connect None) = None
  /\ (forall protocol model_ids groups_,
        tobjects (connect None) protocol model_ids groups_ = Err UninitializedStore)
  /\ (forall g ps, reverse g (connect None) ps = Err UninitializedStore).
Proof.
  split; [reflexivity |].
  pose proof (uninitialized_store_fails_fast (fun l => l) (connect None) eq_refl) as H.
  split; apply H.
Defined.

(** ** The groups argument of T-norm and Z-norm clients *)

Lemma clients_world_onethird_Err (db : Database) (p : arg string)
  (obj : string) (k : pyval) (valid : list pyval) :
  clients db p (Scalar "world") (Scalar "onethird") Absent Absent
  = Err (InvalidSelector obj k valid) ->
  obj = "protocol" \/ obj = "subworld".
Proof.
  unfold clients.
  destruct (assert_validity db) as [u | e] eqn:Hv; simpl;
    [| unfold assert_validity in Hv; destruct (negb (is_valid db)); congruence].
  destruct (protocol_names db) as [vp | e] eqn:Hp; simpl.
  2: { unfold protocol_names, protocols in Hp. rewrite Hv in Hp. simpl in Hp.
       destruct (session_query db) as [s | e'] eqn:Hs; simpl in Hp; [discriminate |].
       unfold session_query in Hs. unfold assert_validity, is_valid in Hv.
       destruct (session db); simpl in *; congruence. }
  destruct (subworld_names db) as [vs | e] eqn:Hw; simpl.
  2: { unfold subworld_names, subworlds in Hw. rewrite Hv in Hw. simpl in Hw.
       destruct (session_query db) as [s | e'] eqn:Hs; simpl in Hw; [discriminate |].
       unfold session_query in Hs. unfold assert_validity, is_valid in Hv.
       destruct (session db); simpl in *; congruence. }
  destruct (check_validity p "protocol" vp vp) as [pr | e] eqn:Hcp; simpl.
  2: { apply check_validity_Err in Hcp. destruct Hcp as [k' ->].
       intros He. injection He as -> _ _. left. reflexivity. }
  change (check_validity (Scalar "world") "group" groups groups) with (@Ok (list string) ["world"]).
  simpl.
  destruct (check_validity (Scalar "onethird") "subworld" vs []) as [sw | e] eqn:Hcs; simpl.
  2: { apply check_validity_Err in Hcs. destruct Hcs as [k' ->].
       intros He. injection He as -> _ _. right. reflexivity. }
  destruct (session_query db) as [s | e] eqn:Hs; simpl; [discriminate |].
  unfold session_query in Hs. destruct (session db); congruence.
Qed.

(** C10.  [tclients] and [zclients] do not depend on their [groups]
    argument, of whatever type and value, and never raise the Invalid
    Selector error of the argument name ["group"]. *)
Theorem tclients_zclients_ignore_groups {G1 G2 : Type} (db : Database)
  (p : arg string) (g1 : G1) (g2 : G2) :
  tclients db p g1 = tclients db p g2
  /\ zclients db p g1 = zclients db p g2
  /\ (forall k valid, tclients db p g1 <> Err (InvalidSelector "group" k valid))
  /\ (forall k valid, zclients db p g1 <> Err (InvalidSelector "group" k valid)).
Proof.
  split; [reflexivity | split; [reflexivity |]].
  split; intros k valid He;
    apply clients_world_onethird_Err in He; destruct He as [He | He]; discriminate He.
Qed.

(** ** Lists *)

Lemma flat_map_ext_In {A B : Type} (f g : A -> list B) (l : list A) :
  (forall a, In a l -> f a = g a) -> flat_map f l = flat_map g l.
Proof.
  induction l as [| a l IH]; simpl; intros Hfg.
  - reflexivity.
  - rewrite (Hfg a (or_introl eq_refl)), IH; [reflexivity |].
    intros b Hb. apply Hfg. right. exact Hb.
Qed.

Lemma flat_map_singleton {A : Type} (l : list A) : flat_map (fun a => [a]) l = l.
Proof.
  induction l as [| a l IH]; simpl; [| rewrite IH]; reflexivity.
Qed.

Lemma flat_map_flat_map {A B C : Type} (f : A -> list B) (g : B -> list C) (l : list A) :
  flat_map g (flat_map f l) = flat_map (fun a => flat_map g (f a)) l.
Proof.
  induction l as [| a l IH]; simpl.
  - reflexivity.
  - rewrite flat_map_app, IH. reflexivity.
Qed.

Lemma filter_filter_In {A : Type} (f g : A -> bool) (l : list A) :
  (forall a, In a l -> f a = true -> g a = true) ->
  filter f (filter g l) = filter f l.
Proof.
  induction l as [| a l IH]; simpl; intros Hfg.
  - reflexivity.
  - assert (IH' : filter f (filter g l) = filter f l)
      by (apply IH; intros b Hb; apply Hfg; right; exact Hb).
    destruct (f a) eqn:Hf.
    + rewrite (Hfg a (or_introl eq_refl) Hf). simpl. rewrite Hf, IH'. reflexivity.
    + destruct (g a); simpl; [rewrite Hf |]; exact IH'.
Qed.

(** The rows of a key that occurs once. *)
Lemma filter_key_absent {A K : Type} `{PyValue K} (key : A -> K) (l : list A) (v : K) :
  ~ In v (map key l) -> filter (fun x => py_eqb (key x) v) l = [].
Proof.
  induction l as [| x l IH]; simpl; intros Hv.
  - reflexivity.
  - destruct (py_eqb (key x) v) eqn:Hx.
    + apply py_eqb_eq in Hx. tauto.
    + apply IH. tauto.
Qed.

Lemma filter_key_unique {A K : Type} `{PyValue K} (key : A -> K) (l : list A) (k : A) :
  NoDup (map key l) -> In k l -> filter (fun x => py_eqb (key x) (key k)) l = [k].
Proof.
  induction l as [| x l IH]; simpl; intros Hnd Hk.
  - contradiction.
  - inversion Hnd as [| y ys Hx Hnd']; subst.
    destruct Hk as [Hk | Hk].
    + subst x. assert (Hkk : py_eqb (key k) (key k) = true) by (apply py_eqb_eq; reflexivity).
      rewrite Hkk. rewrite (filter_key_absent key l (key k) Hx). reflexivity.
    + destruct (py_eqb (key x) (key k)) eqn:Hxk.
      * apply py_eqb_eq in Hxk. exfalso. apply Hx. rewrite Hxk. apply in_map. exact Hk.
      * apply IH; assumption.
Qed.

(** ** The path mapper *)

Lemma extend_each_bound {A B : Type} (body : A -> list B) (ps : list A) (acc : list B) :
  extend_each body ps (Some acc) = Ok (Some (acc ++ flat_map body ps)).
Proof.
  revert acc. induction ps as [| p ps IH]; intros acc; simpl.
  - rewrite app_nil_r. reflexivity.
  - rewrite IH, app_assoc. reflexivity.
Qed.

Lemma extend_each_global_unbound {A B : Type} (body : A -> list B) (ps : list A) :
  bind (extend_each_global body ps None) (read_global "retval")
  = Err (NameError "retval").
Proof.
  destruct ps; reflexivity.
Qed.

Lemma extend_each_global_bound {A B : Type} (body : A -> list B) (ps : list A)
  (acc : list B) :
  extend_each_global body ps (Some acc) = Ok (Some (acc ++ flat_map body ps)).
Proof.
  revert acc. induction ps as [| p ps IH]; intros acc; simpl.
  - rewrite app_nil_r. reflexivity.
  - rewrite IH, app_assoc. reflexivity.
Qed.

Lemma find_key_filter {A : Type} (key : A -> Z) (l : list A) (p : Z) :
  NoDup (map key l) ->
  filter (fun k => Z.eqb (key k) p) l
  = match find (fun k => Z.eqb (key k) p) l with Some k => [k] | None => [] end.
Proof.
  induction l as [| x l IH]; simpl; intros Hnd.
  - reflexivity.
  - inversion Hnd as [| y ys Hx Hnd']; subst.
    destruct (Z.eqb (key x) p) eqn:Hxp.
    + apply Z.eqb_eq in Hxp. subst p.
      change (fun k : A => Z.eqb (key k) (key x)) with (fun k : A => py_eqb (key k) (key x)).
      rewrite (filter_key_absent key l (key x) Hx). reflexivity.
    + apply IH. exact Hnd'.
Qed.

Lemma paths_of_path_of_id (s : Store) (ids : list Z) (prefix suffix : string) (p : Z) :
  NoDup (map file_id (tbl_file s)) ->
  In p ids ->
  paths_of (filter (fun k => py_in (file_id k) ids) (tbl_file s)) prefix suffix p
  = path_of_id s prefix suffix p.
Proof.
  intros Hnd Hp. unfold paths_of, path_of_id, file_of_id.
  rewrite filter_filter_In.
  - rewrite (find_key_filter file_id (tbl_file s) p Hnd).
    destruct (find (fun k => Z.eqb (file_id k) p) (tbl_file s)); reflexivity.
  - intros k _ Hk. apply Z.eqb_eq in Hk. apply py_in_In. rewrite Hk. exact Hp.
Qed.

Lemma paths_flat_map (db : Database) (s : Store) (ids : list Z)
  (prefix suffix : string) :
  session db = Some s ->
  NoDup (map file_id (tbl_file s)) ->
  paths db ids prefix suffix = Ok (flat_map (path_of_id s prefix suffix) ids).
Proof.
  intros Hs Hnd. unfold paths, assert_validity, is_valid, session_query.
  rewrite Hs. simpl. rewrite extend_each_bound. simpl.
  f_equal. apply flat_map_ext_In. intros p Hp.
  apply paths_of_path_of_id; assumption.
Qed.

Lemma example_store_file_ids : NoDup (map file_id (tbl_file example_store)).
Proof.
  vm_compute. repeat constructor; simpl; intuition discriminate.
Defined.

(** C9.  On a store whose file identifiers are unique, [paths] returns, for
    the identifiers of [ids] taken in their order and as many times as they
    occur, the prefix, the path stem of the file of that identifier and the
    suffix put together; an identifier of no file gives no path. *)
Theorem paths_in_caller_order (db : Database) (s : Store) (ids : list Z)
  (prefix suffix : string) :
  session db = Some s ->
  NoDup (map file_id (tbl_file s)) ->
  paths db ids prefix suffix = Ok (flat_map (path_of_id s prefix suffix) ids).
Proof.
  exact (paths_flat_map db s ids prefix suffix).
Qed.

(** The identifiers [4; 1; 9; 4] of the small catalogue: the file 4 comes
    first and twice, the missing 9 gives nothing. *)
Lemma paths_in_caller_order_witness :
  paths example_db [4; 1; 9; 4] "/data/" ".jpg"
  = Ok ["/data/surveillance/003_cam1_1.jpg"; "/data/mugshot/001_frontal.jpg";
        "/data/surveillance/003_cam1_1.jpg"].
Proof.
  rewrite (paths_in_caller_order example_db example_store [4; 1; 9; 4] "/data/" ".jpg").
  - vm_compute. reflexivity.
  - reflexivity.
  - exact example_store_file_ids.
Defined.

(** ** The reverse lookup *)

Lemma append_empty_r (s : string) : String.append s "" = s.
Proof.
  induction s as [| c s IH]; simpl; [| rewrite IH]; reflexivity.
Qed.

Lemma reverse_ids_fobj (s : Store) (ps : list string) (p : string) :
  In p ps ->
  reverse_ids (reverse_fobj s ps) p
  = map file_id (filter (fun k => String.eqb (file_path k) p) (tbl_file s)).
Proof.
  intros Hp. unfold reverse_ids, reverse_fobj. rewrite filter_filter_In; [reflexivity |].
  intros k _ Hk. apply String.eqb_eq in Hk. apply py_in_In. rewrite Hk. exact Hp.
Qed.

Lemma file_of_id_present (s : Store) (i : Z) :
  In i (map file_id (tbl_file s)) ->
  exists k, file_of_id s i = Some k /\ In k (tbl_file s) /\ file_id k = i.
Proof.
  intros Hi. unfold file_of_id.
  destruct (find (fun k => Z.eqb (file_id k) i) (tbl_file s)) as [k |] eqn:Hf.
  - apply find_some in Hf. destruct Hf as [Hk Hid]. apply Z.eqb_eq in Hid.
    exists k. repeat split; assumption.
  - apply in_map_iff in Hi. destruct Hi as [k [Hid Hk]].
    pose proof (find_none _ _ Hf k Hk) as Hn. simpl in Hn.
    apply Z.eqb_neq in Hn. contradiction.
Qed.

(** In a module that binds [retval] to nothing, [reverse] raises on every
    list of paths once the session is found open. *)
Lemma reverse_name_error (db : Database) (s : Store) (ps : list string) :
  session db = Some s -> reverse None db ps = Err (NameError "retval").
Proof.
  intros Hs. unfold reverse, assert_validity, is_valid, session_query.
  rewrite Hs. simpl. apply extend_each_global_unbound.
Qed.

(** In a module that binds [retval] to the list [r], [reverse] returns [r]
    extended with the identifiers of the files of the stems given. *)
Lemma reverse_bound (db : Database) (s : Store) (r : list Z) (ps : list string) :
  session db = Some s ->
  reverse (Some r) db ps = Ok (r ++ flat_map (reverse_ids (reverse_fobj s ps)) ps).
Proof.
  intros Hs. unfold reverse, assert_validity, is_valid, session_query.
  rewrite Hs. simpl. rewrite extend_each_global_bound. reflexivity.
Qed.

(** What the missing [retval = []] would give: were the name bound to the
    empty list, then, on a store whose file identifiers and path stems are
    unique and for identifiers that are all in the store, [reverse] would
    take the stems [paths] returns for the empty prefix and suffix back to
    the identifiers, in their order. *)
Lemma reverse_of_stems_if_bound (db : Database) (s : Store) (ids : list Z) :
  session db = Some s ->
  NoDup (map file_id (tbl_file s)) ->
  NoDup (map file_path (tbl_file s)) ->
  (forall i, In i ids -> In i (map file_id (tbl_file s))) ->
  exists ps, paths db ids "" "" = Ok ps /\ reverse (Some []) db ps = Ok ids.
Proof.
  intros Hs Hid Hpath Hin.
  exists (flat_map (path_of_id s "" "") ids).
  split; [apply paths_flat_map; assumption |].
  rewrite (reverse_bound db s [] _ Hs). simpl. f_equal.
  rewrite (flat_map_ext_In _ _ _ (reverse_ids_fobj s (flat_map (path_of_id s "" "") ids))).
  rewrite flat_map_flat_map.
  rewrite <- (flat_map_singleton ids) at 2.
  apply flat_map_ext_In. intros i Hi.
  destruct (file_of_id_present s i (Hin i Hi)) as [k [Hf [Hk Hki]]].
  unfold path_of_id. rewrite Hf. simpl. rewrite append_empty_r, app_nil_r.
  change (fun k0 : File => String.eqb (file_path k0) (file_path k))
    with (fun k0 : File => py_eqb (file_path k0) (file_path k)).
  rewrite (filter_key_unique file_path (tbl_file s) k Hpath Hk).
  simpl. rewrite Hki. reflexivity.
Qed.

(** C2.  [reverse] does not take the paths of [paths] back to the
    identifiers.  On the file 4 of the small catalogue, with the prefix
    ["/data/"] and the suffix [".jpg"], [paths] returns one path, and
    [reverse], in a module that binds [retval] to nothing, as [query.py]
    leaves it, raises [NameError] on it where the identifier 4 is expected;
    it does so for the empty prefix and suffix as well. *)
Theorem reverse_after_paths_raises :
  paths example_db [4] "/data/" ".jpg" = Ok ["/data/surveillance/003_cam1_1.jpg"]
  /\ reverse None example_db ["/data/surveillance/003_cam1_1.jpg"]
     = Err (NameError "retval")
  /\ paths example_db [4] "" "" = Ok ["surveillance/003_cam1_1"]
  /\ reverse None example_db ["surveillance/003_cam1_1"] = Err (NameError "retval").
Proof.
  repeat split; vm_compute; reflexivity.
Qed.

(** ** Joins, orderings and distinct results *)

Lemma in_join {A B : Type} (on : A -> B -> bool) (l : list A) (r : list B) (a : A) (b : B) :
  In (a, b) (join on l r) <-> In a l /\ In b r /\ on a b = true.
Proof.
  unfold join. rewrite in_flat_map. split.
  - intros [x [Hx Hab]]. apply in_map_iff in Hab. destruct Hab as [y [Heq Hy]].
    injection Heq as -> ->. apply filter_In in Hy. tauto.
  - intros [Ha [Hb Hon]]. exists a. split; [exact Ha |].
    apply in_map. apply filter_In. tauto.
Qed.

Lemma insert_by_perm {A : Type} (leb : A -> A -> bool) (x : A) (l : list A) :
  Permutation (insert_by leb x l) (x :: l).
Proof.
  induction l as [| y l IH]; simpl.
  - apply Permutation_refl.
  - destruct (leb x y).
    + apply Permutation_refl.
    + apply Permutation_trans with (y :: x :: l).
      * apply perm_skip. exact IH.
      * apply perm_swap.
Qed.

Lemma order_by_perm {A : Type} (leb : A -> A -> bool) (l : list A) :
  Permutation (order_by leb l) l.
Proof.
  induction l as [| x l IH]; simpl.
  - apply perm_nil.
  - apply Permutation_trans with (x :: order_by leb l).
    + apply insert_by_perm.
    + apply perm_skip. exact IH.
Qed.

Lemma order_by_In {A : Type} (leb : A -> A -> bool) (l : list A) (x : A) :
  In x (order_by leb l) <-> In x l.
Proof.
  split; apply Permutation_in.
  - apply order_by_perm.
  - apply Permutation_sym, order_by_perm.
Qed.

Section Ordering.
Context {A : Type} (leb : A -> A -> bool).
Hypothesis leb_total : forall x y, leb x y = true \/ leb y x = true.

Lemma insert_by_sorted (x : A) (l : list A) :
  Sorted (fun a b => leb a b = true) l ->
  Sorted (fun a b => leb a b = true) (insert_by leb x l).
Proof.
  induction l as [| y l IH]; simpl; intros Hl.
  - constructor; constructor.
  - destruct (leb x y) eqn:Hxy.
    + constructor; [exact Hl | constructor; exact Hxy].
    + apply Sorted_inv in Hl. destruct Hl as [Hl Hy].
      constructor; [apply IH; exact Hl |].
      destruct l as [| z l]; simpl.
      * constructor. destruct (leb_total x y); congruence.
      * destruct (leb x z).
        -- constructor. destruct (leb_total x y); congruence.
        -- constructor. inversion Hy; assumption.
Qed.

Lemma order_by_sorted (l : list A) :
  Sorted (fun a b => leb a b = true) (order_by leb l).
Proof.
  induction l as [| x l IH]; simpl.
  - constructor.
  - apply insert_by_sorted. exact IH.
Qed.

End Ordering.

Lemma StronglySorted_filter {A : Type} (R : A -> A -> Prop) (f : A -> bool) (l : list A) :
  StronglySorted R l -> StronglySorted R (filter f l).
Proof.
  induction 1 as [| x l Hl IH Hx]; simpl.
  - constructor.
  - destruct (f x); [| exact IH].
    constructor; [exact IH |].
    apply Forall_forall. intros y Hy. apply filter_In in Hy.
    rewrite Forall_forall in Hx. apply Hx. tauto.
Qed.

Section Unique.
Context {A : Type} (key : A -> Z).

Lemma unique_by_incl (l : list A) (x : A) : In x (unique_by key l) -> In x l.
Proof.
  induction l as [| a l IH]; simpl; [tauto |].
  intros [Hx | Hx]; [left; exact Hx | right].
  apply filter_In in Hx. apply IH. tauto.
Qed.

Lemma unique_by_complete (l : list A) (x : A) :
  (forall a b, In a l -> In b l -> key a = key b -> a = b) ->
  In x l -> In x (unique_by key l).
Proof.
  induction l as [| a l IH]; simpl; [tauto |].
  intros Hinj [Hx | Hx]; [left; exact Hx |].
  destruct (Z.eq_dec (key x) (key a)) as [Hk | Hk].
  - left. symmetry. apply Hinj; [right; exact Hx | left; reflexivity | exact Hk].
  - right. apply filter_In. split.
    + apply IH; [| exact Hx]. intros b c Hb Hc. apply Hinj; right; assumption.
    + apply negb_true_iff, Z.eqb_neq. exact Hk.
Qed.

Lemma NoDup_map_filter (f : A -> bool) (l : list A) :
  NoDup (map key l) -> NoDup (map key (filter f l)).
Proof.
  induction l as [| a l IH]; simpl; intros Hnd; [constructor |].
  inversion Hnd as [| k ks Ha Hnd']; subst.
  destruct (f a); simpl; [| apply IH; exact Hnd'].
  constructor; [| apply IH; exact Hnd'].
  intros Hin. apply Ha. apply in_map_iff in Hin. destruct Hin as [b [Hb Hbl]].
  apply filter_In in Hbl. apply in_map_iff. exists b. tauto.
Qed.

Lemma unique_by_NoDup (l : list A) : NoDup (map key (unique_by key l)).
Proof.
  induction l as [| a l IH]; simpl; [constructor |].
  constructor; [| apply NoDup_map_filter; exact IH].
  intros Hin. apply in_map_iff in Hin. destruct Hin as [b [Hb Hbl]].
  apply filter_In in Hbl. destruct Hbl as [_ Hne].
  apply negb_true_iff, Z.eqb_neq in Hne. contradiction.
Qed.

Lemma unique_by_sorted (R : A -> A -> Prop) (l : list A) :
  StronglySorted R l -> StronglySorted R (unique_by key l).
Proof.
  induction 1 as [| x l Hl IH Hx]; simpl.
  - constructor.
  - constructor; [apply StronglySorted_filter; exact IH |].
    apply Forall_forall. intros y Hy. apply filter_In in Hy.
    rewrite Forall_forall in Hx. apply Hx. apply unique_by_incl. tauto.
Qed.

End Unique.

Lemma NoDup_map_inj {A : Type} (key : A -> Z) (l : list A) (a b : A) :
  NoDup (map key l) -> In a l -> In b l -> key a = key b -> a = b.
Proof.
  induction l as [| x l IH]; simpl; intros Hnd Ha Hb Hk; [contradiction |].
  inversion Hnd as [| k ks Hx Hnd']; subst.
  destruct Ha as [Ha | Ha], Hb as [Hb | Hb].
  - congruence.
  - subst x. exfalso. apply Hx. rewrite Hk. apply in_map. exact Hb.
  - subst x. exfalso. apply Hx. rewrite <- Hk. apply in_map. exact Ha.
  - apply IH; assumption.
Qed.

(** ** The file selector *)

Lemma in_file_query (s : Store) (r : FileRow) :
  In r (file_query s) <->
  In (row_file r) (tbl_file s)
  /\ In (row_client r) (tbl_client s)
  /\ file_client_id (row_file r) = client_id (row_client r)
  /\ In (row_pp r) (tbl_protocolpurpose s)
  /\ In (file_id (row_file r)) (pp_files (row_pp r))
  /\ In (row_protocol r) (tbl_protocol s)
  /\ pp_protocol_id (row_pp r) = protocol_id (row_protocol r).
Proof.
  destruct r as [[[f c] pp] p].
  unfold file_query, row_file, row_client, row_pp, row_protocol, FileRow.
  rewrite !in_join. simpl. rewrite py_in_In, !Z.eqb_eq. tauto.
Qed.

Lemma in_fetch_files (s : Store) (q : list FileRow) (f : File) :
  NoDup (map file_id (tbl_file s)) ->
  incl q (file_query s) ->
  In f (fetch_files q) <-> exists r, In r q /\ row_file r = f.
Proof.
  intros Hnd Hq. unfold fetch_files. split.
  - intros Hf. apply unique_by_incl in Hf. apply in_map_iff in Hf.
    destruct Hf as [r [Hr Hin]]. apply order_by_In in Hin. exists r. tauto.
  - intros [r [Hr Hf]]. apply unique_by_complete.
    + intros a b Ha Hb. apply (NoDup_map_inj file_id (tbl_file s)); [exact Hnd | |].
      * apply in_map_iff in Ha. destruct Ha as [ra [<- Hra]].
        apply order_by_In in Hra. apply Hq, in_file_query in Hra. tauto.
      * apply in_map_iff in Hb. destruct Hb as [rb [<- Hrb]].
        apply order_by_In in Hrb. apply Hq, in_file_query in Hrb. tauto.
    + apply in_map_iff. exists r. split; [exact Hf | apply order_by_In; exact Hr].
Qed.

Lemma purpose_filter_serves (s : Store) (protocol groups : list string) (purpose : string)
  (f : File) :
  (exists r, In r (filter (purpose_filter protocol groups purpose) (file_query s))
             /\ row_file r = f)
  <-> file_serves s protocol groups purpose f.
Proof.
  unfold file_serves, purpose_filter. split.
  - intros [r [Hr Hf]]. apply filter_In in Hr. destruct Hr as [Hr Hp].
    apply in_file_query in Hr. rewrite !andb_true_iff, !py_in_In, String.eqb_eq in Hp.
    subst f. split; [tauto |].
    exists (row_client r), (row_pp r), (row_protocol r). tauto.
  - intros [Hf [c [pp [p H]]]]. exists (f, c, pp, p). split; [| reflexivity].
    apply filter_In. split.
    + apply in_file_query. unfold row_file, row_client, row_pp, row_protocol. simpl. tauto.
    + unfold row_pp, row_protocol. simpl.
      rewrite !andb_true_iff, !py_in_In, String.eqb_eq. tauto.
Qed.

Lemma in_objects_probe_impostor (s : Store) (protocol groups : list string)
  (model_ids : list Z) (f : File) :
  NoDup (map file_id (tbl_file s)) ->
  In f (objects_probe_impostor s protocol groups model_ids) <->
  file_serves s protocol groups "probe" f
  /\ (List.length model_ids = 1%nat -> ~ In (file_client_id f) model_ids).
Proof.
  intros Hnd. unfold objects_probe_impostor.
  rewrite <- purpose_filter_serves.
  destruct (Nat.eqb (List.length model_ids) 1) eqn:Hlen.
  - apply Nat.eqb_eq in Hlen. rewrite (in_fetch_files s).
    + split.
      * intros [r [Hr Hf]]. apply filter_In in Hr. destruct Hr as [Hr Hx].
        apply negb_true_iff, py_in_false in Hx. subst f.
        split; [exists r; tauto | intros _; exact Hx].
      * intros [[r [Hr Hf]] Hx]. exists r. split; [| exact Hf].
        apply filter_In. split; [exact Hr |].
        apply negb_true_iff, py_in_false. rewrite Hf. apply Hx. exact Hlen.
    + exact Hnd.
    + intros r Hr. apply filter_In in Hr. destruct Hr as [Hr _].
      apply filter_In in Hr. tauto.
  - apply Nat.eqb_neq in Hlen. rewrite (in_fetch_files s).
    + split; [intros Hr; split; [exact Hr | intros Hl; contradiction] | tauto].
    + exact Hnd.
    + intros r Hr. apply filter_In in Hr. tauto.
Qed.



Ltac bind_inv H :=
  let x := fresh "x" in
  let Hx := fresh "Hx" in
  apply bind_Ok in H; destruct H as [x [Hx H]].

Lemma with_session (db : Database) (s : Store) :
  session db = Some s ->
  assert_validity db = Ok tt
  /\ session_query db = Ok s
  /\ protocol_names db = Ok (map protocol_name (tbl_protocol s))
  /\ subworld_names db = Ok (map subworld_name (tbl_subworld s)).
Proof.
  intros Hs.
  unfold protocol_names, protocols, subworld_names, subworlds,
    assert_validity, is_valid, session_query.
  rewrite Hs. simpl. repeat split; reflexivity.
Qed.

(** What [objects] returns, when it returns. *)
Lemma objects_Ok (set_list : list File -> list File) (db : Database)
  (protocol purposes_ : arg string) (model_ids : arg Z)
  (groups_ classes subworld : arg string) (l : list File) :
  objects set_list db protocol purposes_ model_ids groups_ classes subworld = Ok l ->
  exists s pr pu gr cl sw,
    session db = Some s
    /\ l = set_list (objects_retval s pr pu (normalize_model_ids model_ids) gr cl sw).
Proof.
  unfold objects. intros H. do 9 bind_inv H.
  unfold session_query in Hx7. destruct (session db) as [s |]; [| discriminate].
  injection Hx7 as <-. injection H as <-.
  exists s, x2, x3, x4, x5, x6. split; reflexivity.
Qed.

(** What [objects] returns on a reachable store, when the five selectors are
    valid. *)
Lemma objects_valid (set_list : list File -> list File) (db : Database) (s : Store)
  (protocol purposes_ : arg string) (model_ids : arg Z)
  (groups_ classes subworld : arg string) (pr pu gr cl sw : list string) :
  session db = Some s ->
  check_validity protocol "protocol" (map protocol_name (tbl_protocol s))
    (map protocol_name (tbl_protocol s)) = Ok pr ->
  check_validity purposes_ "purpose" purposes purposes = Ok pu ->
  check_validity groups_ "group" groups groups = Ok gr ->
  check_validity classes "class" ["client"; "impostor"] ["client"; "impostor"] = Ok cl ->
  check_validity subworld "subworld" (map subworld_name (tbl_subworld s)) [] = Ok sw ->
  objects set_list db protocol purposes_ model_ids groups_ classes subworld
  = Ok (set_list (objects_retval s pr pu (normalize_model_ids model_ids) gr cl sw)).
Proof.
  intros Hs Hpr Hpu Hgr Hcl Hsw. unfold objects.
  destruct (with_session db s Hs) as [Hv [Hq [Hpn Hsn]]].
  rewrite Hv, Hpn, Hsn. simpl. rewrite Hpr. simpl. rewrite Hpu. simpl.
  rewrite Hgr. simpl. rewrite Hcl. simpl. rewrite Hsw. simpl. rewrite Hq. reflexivity.
Qed.

Lemma set_list_ids (set_list : list File -> list File) (l : list File) :
  set_list_spec set_list -> NoDup (map file_id (set_list l)).
Proof.
  intros Hset.
  apply (Permutation_NoDup (l := map file_id (unique_by file_id l))).
  - apply Permutation_map, Permutation_sym, Hset.
  - apply unique_by_NoDup.
Qed.

(** C3.  Whatever the order in which [list(set(retval))] lists the distinct
    files, a list [objects] returns has no two files of the same identifier;
    and on a reachable store [objects] returns such a list whenever its five
    selectors are valid. *)
Theorem objects_no_duplicate_ids (set_list : list File -> list File) (db : Database)
  (protocol purposes_ : arg string) (model_ids : arg Z)
  (groups_ classes subworld : arg string) :
  set_list_spec set_list ->
  (forall l,
      objects set_list db protocol purposes_ model_ids groups_ classes subworld = Ok l ->
      NoDup (map file_id l))
  /\ (forall s pr pu gr cl sw,
        session db = Some s ->
        check_validity protocol "protocol" (map protocol_name (tbl_protocol s))
          (map protocol_name (tbl_protocol s)) = Ok pr ->
        check_validity purposes_ "purpose" purposes purposes = Ok pu ->
        check_validity groups_ "group" groups groups = Ok gr ->
        check_validity classes "class" ["client"; "impostor"] ["client"; "impostor"] = Ok cl ->
        check_validity subworld "subworld" (map subworld_name (tbl_subworld s)) [] = Ok sw ->
        exists l,
          objects set_list db protocol purposes_ model_ids groups_ classes subworld = Ok l
          /\ NoDup (map file_id l)).
Proof.
  intros Hset. split.
  - intros l H. apply objects_Ok in H.
    destruct H as [s [pr [pu [gr [cl [sw [_ ->]]]]]]].
    apply set_list_ids. exact Hset.
  - intros s pr pu gr cl sw Hs Hpr Hpu Hgr Hcl Hsw. eexists. split.
    + apply (objects_valid set_list db s _ _ _ _ _ _ pr pu gr cl sw); assumption.
    + apply set_list_ids. exact Hset.
Qed.

(** The dev probes of the small catalogue under the protocol combined, for
    both classes: the client and the impostor branch both hold the files 4
    and 5, which are returned once each. *)
Lemma objects_no_duplicate_ids_witness :
  List.length (objects_retval example_store ["combined"] ["probe"] [] ["dev"]
                 ["client"; "impostor"] []) = 4%nat
  /\ exists l, objects (unique_by file_id) example_db (Scalar "combined") (Scalar "probe")
                 Absent (Scalar "dev") Absent Absent = Ok l
               /\ List.length l = 2%nat
               /\ NoDup (map file_id l).
Proof.
  split; [vm_compute; reflexivity |].
  eexists. split; [vm_compute; reflexivity |].
  split; [reflexivity |].
  apply (objects_no_duplicate_ids (unique_by file_id) example_db (Scalar "combined")
           (Scalar "probe") Absent (Scalar "dev") Absent Absent).
  - intros l. apply Permutation_refl.
  - vm_compute. reflexivity.
Defined.

(** ** The client selector *)

Lemma in_if_filter {A B : Type} (x : list B) (f : A -> bool) (q : list A) (a : A) :
  In a (if nonempty x then filter f q else q) <-> In a q /\ (x <> [] -> f a = true).
Proof.
  destruct x as [| b x]; simpl.
  - split; [intros Ha; split; [exact Ha | congruence] | tauto].
  - rewrite filter_In. split; [tauto |].
    intros [Ha Hf]. split; [exact Ha | apply Hf; discriminate].
Qed.

Lemma in_join_subworld {R : Type} (client : R -> Client) (rows : list R)
  (tbl : list Subworld) (names : list string) (r : R) :
  In r (join_subworld client rows tbl names) <->
  In r rows /\ exists w, In w tbl /\ In (subworld_name w) names
                         /\ In (client_id (client r)) (subworld_clients w).
Proof.
  unfold join_subworld. rewrite in_map_iff. split.
  - intros [[r' w] [Hr Hin]]. simpl in Hr. subst r'.
    apply filter_In in Hin. destruct Hin as [Hin Hn]. simpl in Hn.
    apply in_join in Hin. rewrite py_in_In in Hin. apply py_in_In in Hn.
    split; [tauto | exists w; tauto].
  - intros [Hr [w [Hw [Hn Hm]]]]. exists (r, w). split; [reflexivity |].
    apply filter_In. split.
    + apply in_join. rewrite py_in_In. tauto.
    + simpl. apply py_in_In. exact Hn.
Qed.

Lemma in_fetch_clients (s : Store) (q : list Client) (c : Client) :
  NoDup (map client_id (tbl_client s)) ->
  incl q (tbl_client s) ->
  In c (fetch_clients q) <-> In c q.
Proof.
  intros Hnd Hq. unfold fetch_clients. split.
  - intros Hc. apply unique_by_incl in Hc. apply order_by_In in Hc. exact Hc.
  - intros Hc. apply unique_by_complete.
    + intros a b Ha Hb. apply order_by_In in Ha. apply order_by_In in Hb.
      apply (NoDup_map_inj client_id (tbl_client s)); auto.
    + apply order_by_In. exact Hc.
Qed.

Lemma fetch_clients_ids (q : list Client) : NoDup (map client_id (fetch_clients q)).
Proof. apply unique_by_NoDup. Qed.

Lemma ascending_of_le (l : list Client) :
  StronglySorted (fun c d => Z.leb (client_id c) (client_id d) = true) l ->
  NoDup (map client_id l) ->
  ascending l.
Proof.
  unfold ascending. induction 1 as [| x l Hl IH Hx]; simpl; intros Hnd.
  - constructor.
  - inversion Hnd as [| k ks Hk Hnd']; subst.
    constructor; [apply IH; exact Hnd' |].
    apply Forall_forall. intros y Hy. rewrite Forall_forall in Hx.
    pose proof (Hx y Hy) as Hle. apply Z.leb_le in Hle.
    assert (client_id x <> client_id y).
    { intros Heq. apply Hk. rewrite Heq. apply in_map. exact Hy. }
    lia.
Qed.

Lemma fetch_clients_ascending (q : list Client) : ascending (fetch_clients q).
Proof.
  apply ascending_of_le; [| apply fetch_clients_ids].
  unfold fetch_clients. apply unique_by_sorted.
  apply Sorted_StronglySorted.
  - intros a b c Hab Hbc. apply Z.leb_le in Hab. apply Z.leb_le in Hbc.
    apply Z.leb_le. lia.
  - apply order_by_sorted. intros a b.
    destruct (Z.leb_spec (client_id a) (client_id b)) as [Hle | Hlt].
    + left. reflexivity.
    + right. apply Z.leb_le. lia.
Qed.

Lemma in_clients_world (s : Store) (subworld gender : list string) (birthyear : list Z)
  (c : Client) :
  NoDup (map client_id (tbl_client s)) ->
  In c (clients_world s subworld gender birthyear) <->
  In c (tbl_client s) /\ client_sgroup c = "world"
  /\ (subworld <> [] -> member_of s subworld c)
  /\ (gender <> [] -> In (client_gender c) gender)
  /\ (birthyear <> [] -> In (client_birthyear c) birthyear).
Proof.
  intros Hnd. unfold clients_world, member_of.
  set (q0 := filter (fun c0 => String.eqb (client_sgroup c0) "world") (tbl_client s)).
  set (q1 := if nonempty subworld then join_subworld (fun c0 => c0) q0 (tbl_subworld s) subworld
             else q0).
  assert (Hq1 : forall a, In a q1 <->
                  In a (tbl_client s) /\ client_sgroup a = "world"
                  /\ (subworld <> [] -> member_of s subworld a)).
  { intros a. unfold q1, q0, member_of. destruct subworld as [| n ns]; simpl.
    - rewrite filter_In, String.eqb_eq. split; [intros [H1 H2] | tauto].
      repeat split; [exact H1 | exact H2 | congruence].
    - rewrite in_join_subworld, filter_In, String.eqb_eq. split.
      + intros [[H1 H2] H3]. repeat split; [exact H1 | exact H2 | intros _; exact H3].
      + intros [H1 [H2 H3]]. split; [tauto | apply H3; discriminate]. }
  rewrite (in_fetch_clients s).
  - rewrite !in_if_filter. fold q1. rewrite Hq1, !py_in_In. unfold member_of. tauto.
  - exact Hnd.
  - intros a Ha. rewrite !in_if_filter in Ha. fold q1 in Ha.
    destruct Ha as [[Ha _] _]. apply Hq1 in Ha. tauto.
Qed.

Lemma in_clients_other (s : Store) (groups gender : list string) (birthyear : list Z)
  (c : Client) :
  NoDup (map client_id (tbl_client s)) ->
  In c (clients_other s groups gender birthyear) <->
  In c (tbl_client s) /\ client_sgroup c <> "world" /\ In (client_sgroup c) groups
  /\ (gender <> [] -> In (client_gender c) gender)
  /\ (birthyear <> [] -> In (client_birthyear c) birthyear).
Proof.
  intros Hnd. unfold clients_other. rewrite (in_fetch_clients s).
  - rewrite !in_if_filter, filter_In, andb_true_iff, negb_true_iff, String.eqb_neq, !py_in_In.
    tauto.
  - exact Hnd.
  - intros a Ha. rewrite !in_if_filter, filter_In in Ha. tauto.
Qed.

Lemma check_validity_valid {A : Type} `{PyValue A} (l : arg A) (obj : string)
  (valid default r : list A) :
  check_validity l obj valid default = Ok r ->
  r = default \/ (forall k, In k r -> In k valid).
Proof.
  assert (Heach : forall xs, check_each xs obj valid = Ok tt ->
                             forall k, In k xs -> In k valid).
  { induction xs as [| x xs IH]; simpl; [tauto |].
    destruct (py_in x valid) eqn:Hx; simpl; [| discriminate].
    intros Hxs k [Hk | Hk]; [subst k; apply py_in_In; exact Hx | apply IH; assumption]. }
  assert (Hseq : forall xs, check_validity_seq xs obj valid default = Ok r ->
                            r = default \/ (forall k, In k r -> In k valid)).
  { intros xs. unfold check_validity_seq.
    destruct (py_not (Seq xs)); [intros Hr; injection Hr as <-; left; reflexivity |].
    destruct (check_each xs obj valid) as [[] | e] eqn:He; simpl; [| discriminate].
    intros Hr. injection Hr as <-. right. apply Heach. exact He. }
  unfold check_validity.
  destruct (py_not l); [intros Hr; injection Hr as <-; left; reflexivity |].
  destruct l as [| a | xs]; [intros Hr; injection Hr as <-; left; reflexivity | |];
    apply Hseq.
Qed.

(** What [clients] returns on a reachable store, when the five selectors are
    valid. *)
Lemma clients_valid (db : Database) (s : Store) (protocol groups_ subworld gender : arg string)
  (birthyear : arg Z) (pr gr sw ge : list string) (bys : list Z) :
  session db = Some s ->
  check_validity protocol "protocol" (map protocol_name (tbl_protocol s))
    (map protocol_name (tbl_protocol s)) = Ok pr ->
  check_validity groups_ "group" groups groups = Ok gr ->
  check_validity subworld "subworld" (map subworld_name (tbl_subworld s)) [] = Ok sw ->
  check_validity gender "gender" genders [] = Ok ge ->
  check_validity birthyear "birthyear" VALID_BIRTHYEARS [] = Ok bys ->
  clients db protocol groups_ subworld gender birthyear = Ok (clients_retval s gr sw ge bys).
Proof.
  intros Hs Hpr Hgr Hsw Hge Hby. unfold clients.
  destruct (with_session db s Hs) as [Hv [Hq [Hpn Hsn]]].
  rewrite Hv, Hpn, Hsn. simpl. rewrite Hpr. simpl. rewrite Hgr. simpl.
  rewrite Hsw. simpl. rewrite Hge. simpl. rewrite Hby. simpl. rewrite Hq. reflexivity.
Qed.

(** What [clients] returned, when it returns. *)
Lemma clients_Ok (db : Database) (s : Store) (protocol groups_ subworld gender : arg string)
  (birthyear : arg Z) (l : list Client) :
  session db = Some s ->
  clients db protocol groups_ subworld gender birthyear = Ok l ->
  exists pr gr sw ge bys,
    check_validity protocol "protocol" (map protocol_name (tbl_protocol s))
      (map protocol_name (tbl_protocol s)) = Ok pr
    /\ check_validity groups_ "group" groups groups = Ok gr
    /\ check_validity subworld "subworld" (map subworld_name (tbl_subworld s)) [] = Ok sw
    /\ check_validity gender "gender" genders [] = Ok ge
    /\ check_validity birthyear "birthyear" VALID_BIRTHYEARS [] = Ok bys
    /\ l = clients_retval s gr sw ge bys.
Proof.
  intros Hs H. unfold clients in H.
  destruct (with_session db s Hs) as [Hv [Hq [Hpn Hsn]]].
  rewrite Hv, Hpn, Hsn, Hq in H. simpl in H.
  do 5 bind_inv H. simpl in H. injection H as <-.
  exists x, x0, x1, x2, x3. repeat split; assumption.
Qed.

Lemma in_clients_retval_branches (s : Store) (gr sw ge : list string) (bys : list Z)
  (c : Client) :
  In c (clients_retval s gr sw ge bys) <->
  (In "world" gr /\ In c (clients_world s sw ge bys))
  \/ ((In "dev" gr \/ In "eval" gr) /\ In c (clients_other s gr ge bys)).
Proof.
  unfold clients_retval. rewrite <- !py_in_In, <- orb_true_iff.
  destruct (py_in "world" gr); destruct (py_in "dev" gr || py_in "eval" gr);
    simpl; rewrite ?in_app_iff; split; try tauto.
  - intros [[_ H] | [H _]]; [exact H | discriminate H].
  - intros [[H _] | [_ H]]; [discriminate H | exact H].
  - intros [[H _] | [H _]]; discriminate H.
Qed.

Lemma group_choices_cases (g : string) :
  In g group_choices -> g = "dev" \/ g = "eval" \/ g = "world".
Proof.
  unfold group_choices. simpl. intuition.
Qed.

Lemma in_clients_retval (s : Store) (gr sw ge : list string) (bys : list Z) (c : Client) :
  NoDup (map client_id (tbl_client s)) ->
  (forall g, In g gr -> In g group_choices) ->
  In c (clients_retval s gr sw ge bys) <-> client_selected s gr sw ge bys c.
Proof.
  intros Hnd Hgr. rewrite in_clients_retval_branches.
  rewrite (in_clients_world s sw ge bys c Hnd), (in_clients_other s gr ge bys c Hnd).
  unfold client_selected. split.
  - intros [[Hw [Hc [Hg H]]] | [Hde [Hc [Hg H]]]].
    + rewrite Hg. tauto.
    + tauto.
  - intros [Hc [Hg [Hge [Hby Hsw]]]].
    destruct (string_dec (client_sgroup c) "world") as [Hw | Hw].
    + left. rewrite Hw in Hg. tauto.
    + right. split; [| tauto].
      destruct (group_choices_cases _ (Hgr _ Hg)) as [Hd | [He | Hx]].
      * left. rewrite <- Hd. exact Hg.
      * right. rewrite <- He. exact Hg.
      * contradiction.
Qed.

(** The two branches of [clients]. *)
Lemma clients_retval_branches (s : Store) (gr sw ge : list string) (bys : list Z) :
  NoDup (map client_id (tbl_client s)) ->
  exists lw lo,
    clients_retval s gr sw ge bys = lw ++ lo
    /\ ascending lw /\ ascending lo
    /\ (forall c, In c lw -> In c (tbl_client s) /\ client_sgroup c = "world")
    /\ (forall c, In c lo -> In c (tbl_client s) /\ client_sgroup c <> "world")
    /\ NoDup (map client_id lw) /\ NoDup (map client_id lo).
Proof.
  intros Hnd.
  exists (if py_in "world" gr then clients_world s sw ge bys else []),
         (if py_in "dev" gr || py_in "eval" gr then clients_other s gr ge bys else []).
  split; [| split; [| split; [| split; [| split; [| split]]]]].
  - unfold clients_retval.
    destruct (py_in "world" gr); destruct (py_in "dev" gr || py_in "eval" gr);
      simpl; rewrite ?app_nil_r; reflexivity.
  - destruct (py_in "world" gr); [apply fetch_clients_ascending | constructor].
  - destruct (py_in "dev" gr || py_in "eval" gr); [apply fetch_clients_ascending | constructor].
  - intros c Hc. destruct (py_in "world" gr); [| contradiction].
    apply (in_clients_world s sw ge bys c Hnd) in Hc. tauto.
  - intros c Hc. destruct (py_in "dev" gr || py_in "eval" gr); [| contradiction].
    apply (in_clients_other s gr ge bys c Hnd) in Hc. tauto.
  - destruct (py_in "world" gr); [apply fetch_clients_ids | constructor].
  - destruct (py_in "dev" gr || py_in "eval" gr); [apply fetch_clients_ids | constructor].
Qed.

Lemma clients_retval_ids (s : Store) (gr sw ge : list string) (bys : list Z) :
  NoDup (map client_id (tbl_client s)) ->
  NoDup (map client_id (clients_retval s gr sw ge bys)).
Proof.
  intros Hnd.
  destruct (clients_retval_branches s gr sw ge bys Hnd)
    as [lw [lo [-> [_ [_ [Hw [Ho [Hnw Hno]]]]]]]].
  rewrite map_app. apply NoDup_app; [exact Hnw | exact Hno |].
  intros k Hkw Hko.
  apply in_map_iff in Hkw. destruct Hkw as [c [Hck Hc]].
  apply in_map_iff in Hko. destruct Hko as [d [Hdk Hd]].
  destruct (Hw c Hc) as [Hcs Hcw]. destruct (Ho d Hd) as [Hds Hdw].
  assert (c = d) by (apply (NoDup_map_inj client_id (tbl_client s)); congruence).
  subst d. contradiction.
Qed.

Lemma in_clients_of_group (s : Store) (g : string) (c : Client) :
  NoDup (map client_id (tbl_client s)) ->
  In g group_choices ->
  In c (clients_retval s [g] [] [] []) <-> In c (tbl_client s) /\ client_sgroup c = g.
Proof.
  intros Hnd Hg. rewrite (in_clients_retval s [g] [] [] [] c Hnd).
  - unfold client_selected. simpl. split.
    + intros [Hc [[Hs | []] _]]. split; [exact Hc | symmetry; exact Hs].
    + intros [Hc Hs].
      split; [exact Hc | split; [left; symmetry; exact Hs |]].
      split; [congruence | split; congruence].
  - intros g' [<- | []]. exact Hg.
Qed.

(** The clients of the three groups, taken together, are the clients of the
    store, each once. *)
Lemma clients_groups_cover (s : Store) :
  NoDup (map client_id (tbl_client s)) ->
  (forall c, In c (tbl_client s) -> In (client_sgroup c) group_choices) ->
  NoDup (clients_retval s ["world"] [] [] [] ++ clients_retval s ["dev"] [] [] []
         ++ clients_retval s ["eval"] [] [] [])
  /\ Permutation (clients_retval s ["world"] [] [] [] ++ clients_retval s ["dev"] [] [] []
                  ++ clients_retval s ["eval"] [] [] [])
       (tbl_client s).
Proof.
  intros Hnd Hgroups.
  assert (Hw : forall c, In c (clients_retval s ["world"] [] [] []) <->
                         In c (tbl_client s) /\ client_sgroup c = "world").
  { intros c. apply in_clients_of_group; [exact Hnd | simpl; tauto]. }
  assert (Hd : forall c, In c (clients_retval s ["dev"] [] [] []) <->
                         In c (tbl_client s) /\ client_sgroup c = "dev").
  { intros c. apply in_clients_of_group; [exact Hnd | simpl; tauto]. }
  assert (He : forall c, In c (clients_retval s ["eval"] [] [] []) <->
                         In c (tbl_client s) /\ client_sgroup c = "eval").
  { intros c. apply in_clients_of_group; [exact Hnd | simpl; tauto]. }
  assert (Hall : NoDup (clients_retval s ["world"] [] [] [] ++ clients_retval s ["dev"] [] [] []
                        ++ clients_retval s ["eval"] [] [] [])).
  { apply NoDup_app; [| apply NoDup_app |].
    - apply (NoDup_map_inv client_id), clients_retval_ids, Hnd.
    - apply (NoDup_map_inv client_id), clients_retval_ids, Hnd.
    - apply (NoDup_map_inv client_id), clients_retval_ids, Hnd.
    - intros c Hcd Hce. apply Hd in Hcd. apply He in Hce.
      destruct Hcd as [_ Hcd]. destruct Hce as [_ Hce]. congruence.
    - intros c Hcw Hcde. apply Hw in Hcw. destruct Hcw as [_ Hcw].
      apply in_app_iff in Hcde. destruct Hcde as [Hc | Hc].
      + apply Hd in Hc. destruct Hc as [_ Hc]. congruence.
      + apply He in Hc. destruct Hc as [_ Hc]. congruence. }
  split; [exact Hall |].
  apply NoDup_Permutation; [exact Hall | apply (NoDup_map_inv client_id), Hnd |].
  intros c. rewrite !in_app_iff, Hw, Hd, He. split; [tauto |].
  intros Hc. destruct (group_choices_cases _ (Hgroups c Hc)) as [H | [H | H]]; tauto.
Qed.

(** C6, as the code has it.  On a reachable store whose client identifiers
    are unique and whose clients are of the three groups, the list [clients]
    returns holds exactly the clients that are of one of the validated
    groups, of one of the genders and birth years where some are given, and,
    for the clients of the world group only, members of one of the subworlds
    where some are given; it is the clients of the world group followed by
    the others, both by ascending identifier, and no identifier occurs in it
    twice; and the clients returned for the groups world, dev and eval,
    taken together, are the clients of the store, each once. *)
Theorem clients_contract (db : Database) (s : Store)
  (protocol groups_ subworld gender : arg string) (birthyear : arg Z) (l : list Client) :
  session db = Some s ->
  NoDup (map client_id (tbl_client s)) ->
  (forall c, In c (tbl_client s) -> In (client_sgroup c) group_choices) ->
  clients db protocol groups_ subworld gender birthyear = Ok l ->
  (exists gr sw ge bys,
      check_validity groups_ "group" groups groups = Ok gr
      /\ check_validity subworld "subworld" (map subworld_name (tbl_subworld s)) [] = Ok sw
      /\ check_validity gender "gender" genders [] = Ok ge
      /\ check_validity birthyear "birthyear" VALID_BIRTHYEARS [] = Ok bys
      /\ forall c, In c l <-> client_selected s gr sw ge bys c)
  /\ (exists lw lo,
        l = lw ++ lo
        /\ ascending lw /\ ascending lo
        /\ (forall c, In c lw -> client_sgroup c = "world")
        /\ (forall c, In c lo -> client_sgroup c <> "world")
        /\ NoDup (map client_id l))
  /\ (exists lw ld le,
        clients db protocol (Scalar "world") Absent Absent Absent = Ok lw
        /\ clients db protocol (Scalar "dev") Absent Absent Absent = Ok ld
        /\ clients db protocol (Scalar "eval") Absent Absent Absent = Ok le
        /\ NoDup (lw ++ ld ++ le)
        /\ Permutation (lw ++ ld ++ le) (tbl_client s)).
Proof.
  intros Hs Hnd Hgroups H.
  destruct (clients_Ok db s _ _ _ _ _ l Hs H)
    as [pr [gr [sw [ge [bys [Hpr [Hgr [Hsw [Hge [Hby ->]]]]]]]]]].
  split; [| split].
  - exists gr, sw, ge, bys.
    split; [exact Hgr | split; [exact Hsw | split; [exact Hge | split; [exact Hby |]]]].
    intros c. apply (in_clients_retval s gr sw ge bys c Hnd).
    destruct (check_validity_valid _ _ _ _ _ Hgr) as [-> | Hv]; [tauto | exact Hv].
  - destruct (clients_retval_branches s gr sw ge bys Hnd)
      as [lw [lo [Heq [Haw [Hao [Hw [Ho _]]]]]]].
    exists lw, lo. split; [exact Heq |].
    split; [exact Haw | split; [exact Hao |]].
    split; [intros c Hc; apply Hw; exact Hc |].
    split; [intros c Hc; apply Ho; exact Hc |].
    apply clients_retval_ids. exact Hnd.
  - exists (clients_retval s ["world"] [] [] []), (clients_retval s ["dev"] [] [] []),
           (clients_retval s ["eval"] [] [] []).
    split; [apply (clients_valid db s _ _ _ _ _ pr); auto |].
    split; [apply (clients_valid db s _ _ _ _ _ pr); auto |].
    split; [apply (clients_valid db s _ _ _ _ _ pr); auto |].
    apply clients_groups_cover; assumption.
Qed.

Lemma example_store_client_ids : NoDup (map client_id (tbl_client example_store)).
Proof.
  vm_compute. repeat constructor; simpl; intuition discriminate.
Defined.

Lemma example_store_groups (c : Client) :
  In c (tbl_client example_store) -> In (client_sgroup c) group_choices.
Proof.
  simpl. intros [<- | [<- | [<- | [<- | [<- | []]]]]]; simpl; tauto.
Defined.

(** The male clients of the groups world and dev of the small catalogue, the
    world restricted to the subworld onethird. *)
Lemma clients_contract_witness :
  exists l,
    clients example_db Absent (Seq ["world"; "dev"]) (Scalar "onethird") (Scalar "m") Absent
    = Ok l
    /\ List.length l = 2%nat
    /\ (exists lw lo,
          l = lw ++ lo
          /\ ascending lw /\ ascending lo
          /\ (forall c, In c lw -> client_sgroup c = "world")
          /\ (forall c, In c lo -> client_sgroup c <> "world")
          /\ NoDup (map client_id l))
    /\ (exists lw ld le,
          clients example_db Absent (Scalar "world") Absent Absent Absent = Ok lw
          /\ clients example_db Absent (Scalar "dev") Absent Absent Absent = Ok ld
          /\ clients example_db Absent (Scalar "eval") Absent Absent Absent = Ok le
          /\ NoDup (lw ++ ld ++ le)
          /\ Permutation (lw ++ ld ++ le) (tbl_client example_store)).
Proof.
  eexists. split; [vm_compute; reflexivity |].
  split; [reflexivity |].
  apply (clients_contract example_db example_store Absent (Seq ["world"; "dev"])
           (Scalar "onethird") (Scalar "m") Absent).
  - reflexivity.
  - exact example_store_client_ids.
  - exact example_store_groups.
  - vm_compute. reflexivity.
Defined.

(** C6, as stated, fails on the small catalogue for the groups world and dev
    and the subworld onethird: the dev client 3 is returned, and is a member
    of no subworld. *)
Lemma clients_subworld_counterexample :
  exists l c,
    clients example_db Absent (Seq ["world"; "dev"]) (Scalar "onethird") Absent Absent = Ok l
    /\ In c l
    /\ client_id c = 3
    /\ ~ member_of example_store ["onethird"] c.
Proof.
  eexists.
  exists {| client_id := 3; client_sgroup := "dev"; client_gender := "m";
            client_birthyear := 1985 |}.
  split; [vm_compute; reflexivity |].
  split; [simpl; tauto |].
  split; [reflexivity |].
  intros [w [Hw [_ Hm]]]. simpl in Hw.
  destruct Hw as [<- | [<- | []]]; simpl in Hm; intuition discriminate.
Qed.

(** ** The subworlds of the world group *)

Lemma check_validity_scalar_Ok {A : Type} `{PyValue A} (a : A) (obj : string)
  (valid default : list A) :
  truth a = true -> In a valid ->
  check_validity (Scalar a) obj valid default = Ok [a].
Proof.
  intros Ht Ha. unfold check_validity, check_validity_seq. simpl.
  rewrite Ht. simpl. apply py_in_In in Ha. rewrite Ha. reflexivity.
Qed.

Lemma in_clients_of_subworld (s : Store) (name : string) (c : Client) :
  NoDup (map client_id (tbl_client s)) ->
  In c (clients_retval s ["world"] [name] [] []) <->
  In c (tbl_client s) /\ client_sgroup c = "world" /\ member_of s [name] c.
Proof.
  intros Hnd. rewrite (in_clients_retval s ["world"] [name] [] [] c Hnd).
  - unfold client_selected. simpl. split.
    + intros [Hc [[Hs | []] [_ [_ Hm]]]]. symmetry in Hs.
      split; [exact Hc | split; [exact Hs | apply Hm; [discriminate | exact Hs]]].
    + intros [Hc [Hs Hm]].
      split; [exact Hc | split; [left; symmetry; exact Hs |]].
      split; [congruence | split; [congruence | intros _ _; exact Hm]].
  - intros g [<- | []]. simpl. tauto.
Qed.

(** C7.  On a reachable store whose client identifiers are unique, where the
    subworlds onethird and twothirds are registered and every client of the
    world group is a member of the one or of the other and never of both,
    the clients of the world group returned for the subworld onethird and
    those returned for the subworld twothirds have no client in common and
    are, taken together, the clients returned for the world group. *)
Theorem world_subworlds_split (db : Database) (s : Store) :
  session db = Some s ->
  NoDup (map client_id (tbl_client s)) ->
  In "onethird" (map subworld_name (tbl_subworld s)) ->
  In "twothirds" (map subworld_name (tbl_subworld s)) ->
  (forall c, In c (tbl_client s) -> client_sgroup c = "world" ->
             member_of s ["onethird"] c \/ member_of s ["twothirds"] c) ->
  (forall c, In c (tbl_client s) ->
             ~ (member_of s ["onethird"] c /\ member_of s ["twothirds"] c)) ->
  exists l1 l2 lw,
    clients db Absent (Scalar "world") (Scalar "onethird") Absent Absent = Ok l1
    /\ clients db Absent (Scalar "world") (Scalar "twothirds") Absent Absent = Ok l2
    /\ clients db Absent (Scalar "world") Absent Absent Absent = Ok lw
    /\ (forall c, In c l1 -> ~ In c l2)
    /\ Permutation (l1 ++ l2) lw.
Proof.
  intros Hs Hnd H1 H2 Hcover Hexcl.
  exists (clients_retval s ["world"] ["onethird"] [] []),
         (clients_retval s ["world"] ["twothirds"] [] []),
         (clients_retval s ["world"] [] [] []).
  assert (Hdisj : forall c, In c (clients_retval s ["world"] ["onethird"] [] []) ->
                            ~ In c (clients_retval s ["world"] ["twothirds"] [] [])).
  { intros c Hc1 Hc2.
    apply (in_clients_of_subworld s "onethird" c Hnd) in Hc1.
    apply (in_clients_of_subworld s "twothirds" c Hnd) in Hc2.
    apply (Hexcl c); tauto. }
  split; [| split; [| split; [| split]]].
  - apply (clients_valid db s _ _ _ _ _ (map protocol_name (tbl_protocol s))); auto.
    apply check_validity_scalar_Ok; [reflexivity | exact H1].
  - apply (clients_valid db s _ _ _ _ _ (map protocol_name (tbl_protocol s))); auto.
    apply check_validity_scalar_Ok; [reflexivity | exact H2].
  - apply (clients_valid db s _ _ _ _ _ (map protocol_name (tbl_protocol s))); auto.
  - exact Hdisj.
  - apply NoDup_Permutation.
    + apply NoDup_app; [| | exact Hdisj];
        apply (NoDup_map_inv client_id), clients_retval_ids, Hnd.
    + apply (NoDup_map_inv client_id), clients_retval_ids, Hnd.
    + intros c. rewrite in_app_iff.
      rewrite (in_clients_of_subworld s "onethird" c Hnd).
      rewrite (in_clients_of_subworld s "twothirds" c Hnd).
      rewrite (in_clients_of_group s "world" c Hnd); [| simpl; tauto].
      split; [tauto |]. intros [Hc Hw].
      destruct (Hcover c Hc Hw); tauto.
Qed.

(** The small catalogue: the client 1 is in onethird, the client 2 in
    twothirds. *)
Lemma world_subworlds_split_witness :
  exists l1 l2 lw,
    clients example_db Absent (Scalar "world") (Scalar "onethird") Absent Absent = Ok l1
    /\ clients example_db Absent (Scalar "world") (Scalar "twothirds") Absent Absent = Ok l2
    /\ clients example_db Absent (Scalar "world") Absent Absent Absent = Ok lw
    /\ (forall c, In c l1 -> ~ In c l2)
    /\ Permutation (l1 ++ l2) lw.
Proof.
  apply (world_subworlds_split example_db example_store).
  - reflexivity.
  - exact example_store_client_ids.
  - simpl. tauto.
  - simpl. tauto.
  - unfold member_of. simpl.
    intros c [<- | [<- | [<- | [<- | [<- | []]]]]] Hw; try discriminate Hw.
    + left. eexists. split; [left; reflexivity | simpl; tauto].
    + right. eexists. split; [right; left; reflexivity | simpl; tauto].
  - unfold member_of. simpl.
    intros c Hc [[w1 [Hw1 [Hn1 Hm1]]] [w2 [Hw2 [Hn2 Hm2]]]].
    destruct Hw1 as [<- | [<- | []]]; simpl in Hn1, Hm1;
      destruct Hw2 as [<- | [<- | []]]; simpl in Hn2, Hm2;
      intuition (try discriminate; try lia).
Defined.

(** ** T-norm and Z-norm clients *)

Lemma check_validity_scalar_inv {A : Type} `{PyValue A} (a : A) (obj : string)
  (valid default r : list A) :
  truth a = true ->
  check_validity (Scalar a) obj valid default = Ok r -> r = [a].
Proof.
  intros Ht. unfold check_validity, check_validity_seq. simpl. rewrite Ht. simpl.
  destruct (py_in a valid); simpl; intros Hr; [| discriminate Hr].
  injection Hr as <-. reflexivity.
Qed.

Lemma clients_world_onethird_cohort (db : Database) (s : Store) (p : arg string)
  (l : list Client) :
  session db = Some s ->
  NoDup (map client_id (tbl_client s)) ->
  clients db p (Scalar "world") (Scalar "onethird") Absent Absent = Ok l ->
  forall c, In c l <-> norm_cohort s c.
Proof.
  intros Hs Hnd H c.
  destruct (clients_Ok db s _ _ _ _ _ l Hs H)
    as [pr [gr [sw [ge [bys [_ [Hgr [Hsw [Hge [Hby ->]]]]]]]]]].
  apply check_validity_scalar_inv in Hgr; [| reflexivity].
  apply check_validity_scalar_inv in Hsw; [| reflexivity].
  injection Hge as <-. injection Hby as <-. subst gr sw.
  apply in_clients_of_subworld. exact Hnd.
Qed.

(** C8.  [tclients] and [zclients] return the same result, that of [clients]
    on the group ['world'] and the subworld ['onethird'], whatever their
    [groups] argument; on a reachable store whose client identifiers are
    unique, the clients they return are exactly the clients of the world
    group that are members of the subworld onethird. *)
Theorem tclients_zclients_world_onethird {G : Type} (db : Database)
  (p : arg string) (g : G) :
  tclients db p g = zclients db p g
  /\ zclients db p g = clients db p (Scalar "world") (Scalar "onethird") Absent Absent
  /\ forall s l, session db = Some s ->
                 NoDup (map client_id (tbl_client s)) ->
                 tclients db p g = Ok l ->
                 forall c, In c l <-> norm_cohort s c.
Proof.
  split; [reflexivity | split; [reflexivity |]].
  intros s l Hs Hnd H. apply (clients_world_onethird_cohort db s p l Hs Hnd). exact H.
Qed.

(** The cohort of the small catalogue is the client 1. *)
Lemma tclients_zclients_world_onethird_witness :
  exists l, tclients example_db Absent (Scalar "dev") = Ok l
            /\ zclients example_db Absent (Scalar "dev") = Ok l
            /\ List.length l = 1%nat
            /\ forall c, In c l <-> norm_cohort example_store c.
Proof.
  destruct (tclients_zclients_world_onethird example_db Absent (Scalar "dev"))
    as [Htz [_ Hcohort]].
  eexists. split; [vm_compute; reflexivity |].
  split; [rewrite <- Htz; vm_compute; reflexivity |].
  split; [reflexivity |].
  apply (Hcohort example_store); [reflexivity | exact example_store_client_ids |].
  vm_compute. reflexivity.
Defined.

(** * Further properties of the methods *)

(** ** [reverse] *)

(** In a module that binds the name [retval] to nothing, as [query.py]
    leaves it, [reverse] returns on no input: it raises the error of
    [assert_validity] when no session is open, and otherwise [NameError] for
    [retval], which it assigns nowhere, be the list of paths empty or not. *)
Theorem reverse_never_returns (db : Database) (ps : list string) :
  reverse None db ps
  = if is_valid db then Err (NameError "retval") else Err UninitializedStore.
Proof.
  unfold is_valid. destruct (session db) as [s |] eqn:Hs.
  - apply (reverse_name_error db s ps Hs).
  - unfold reverse, assert_validity, is_valid. rewrite Hs. reflexivity.
Qed.

(** ** Lookups by key *)

(** On a reachable store whose client identifiers are unique,
    [has_client_id] tells whether [client] finds a client: for an identifier
    of the store it is true and [client] returns the client of that
    identifier; for any other it is false and [client] raises
    [NoResultFound]. *)
Theorem client_lookup (db : Database) (s : Store) (id : Z) :
  session db = Some s ->
  NoDup (map client_id (tbl_client s)) ->
  (In id (map client_id (tbl_client s)) ->
     has_client_id db id = Ok true
     /\ exists c, client db id = Ok c /\ In c (tbl_client s) /\ client_id c = id)
  /\ (~ In id (map client_id (tbl_client s)) ->
        has_client_id db id = Ok false /\ client db id = Err NoResultFound).
Proof.
  intros Hs Hnd. unfold has_client_id, client.
  destruct (with_session db s Hs) as [Hv [Hq _]]. rewrite Hv, Hq. simpl.
  change (fun c : Client => Z.eqb (client_id c) id)
    with (fun c : Client => py_eqb (client_id c) id).
  split.
  - intros Hid. apply in_map_iff in Hid. destruct Hid as [c [Hc Hin]]. subst id.
    rewrite (filter_key_unique client_id (tbl_client s) c Hnd Hin).
    split; [reflexivity |]. exists c. repeat split. exact Hin.
  - intros Hid. rewrite (filter_key_absent client_id (tbl_client s) id Hid).
    split; reflexivity.
Qed.

Lemma client_lookup_witness :
  has_client_id example_db 3 = Ok true
  /\ (exists c, client example_db 3 = Ok c /\ In c (tbl_client example_store)
                /\ client_id c = 3)
  /\ has_client_id example_db 395 = Ok false
  /\ client example_db 395 = Err NoResultFound.
Proof.
  destruct (client_lookup example_db example_store 3 eq_refl example_store_client_ids)
    as [Hin _].
  destruct (client_lookup example_db example_store 395 eq_refl example_store_client_ids)
    as [_ Hout].
  split; [apply Hin; vm_compute; tauto |].
  split; [apply Hin; vm_compute; tauto |].
  split; apply Hout; vm_compute; intuition discriminate.
Defined.

Lemma count_nonzero_filter {A : Type} (f : A -> bool) (l : list A) :
  count_nonzero (filter f l) = true <-> exists a, In a l /\ f a = true.
Proof.
  unfold count_nonzero. split.
  - destruct (filter f l) as [| a q] eqn:Hq; simpl; [discriminate |].
    intros _. exists a. apply filter_In. rewrite Hq. left. reflexivity.
  - intros [a [Ha Hf]].
    assert (Hin : In a (filter f l)) by (apply filter_In; tauto).
    destruct (filter f l); [contradiction | reflexivity].
Qed.

Lemma one_of_filter {A : Type} (f : A -> bool) (l : list A) :
  (one (filter f l) = Err NoResultFound <-> count_nonzero (filter f l) = false)
  /\ (forall a, one (filter f l) = Ok a -> In a l /\ f a = true).
Proof.
  unfold count_nonzero. destruct (filter f l) as [| a [| b q]] eqn:Hq; simpl.
  - split; [tauto | discriminate].
  - split; [split; discriminate |].
    intros a' Ha. injection Ha as <-. apply filter_In. rewrite Hq. left. reflexivity.
  - split; [split; discriminate | discriminate].
Qed.

(** On a reachable store, [has_protocol] holds of exactly the names
    [protocol_names] lists; [protocol] raises [NoResultFound] exactly when
    [has_protocol] is false, and a protocol it returns is a protocol of the
    store of the name asked for. *)
Theorem protocol_lookup (db : Database) (s : Store) (name : string) :
  session db = Some s ->
  exists names b,
    protocol_names db = Ok names
    /\ has_protocol db name = Ok b
    /\ (b = true <-> In name names)
    /\ (b = false <-> protocol db name = Err NoResultFound)
    /\ (forall p, protocol db name = Ok p ->
                  In p (tbl_protocol s) /\ protocol_name p = name).
Proof.
  intros Hs. destruct (with_session db s Hs) as [Hv [Hq [Hpn _]]].
  exists (map protocol_name (tbl_protocol s)),
         (count_nonzero (filter (fun p => String.eqb (protocol_name p) name) (tbl_protocol s))).
  unfold has_protocol, protocol. rewrite Hv, Hq. simpl.
  destruct (one_of_filter (fun p => String.eqb (protocol_name p) name) (tbl_protocol s))
    as [Hnone Hsome].
  split; [exact Hpn | split; [reflexivity | split; [| split]]].
  - rewrite count_nonzero_filter, in_map_iff. split.
    + intros [p [Hp Hn]]. apply String.eqb_eq in Hn. exists p. tauto.
    + intros [p [Hn Hp]]. exists p. rewrite String.eqb_eq. tauto.
  - symmetry. exact Hnone.
  - intros p Hp. apply Hsome in Hp. rewrite String.eqb_eq in Hp. exact Hp.
Qed.

Lemma protocol_lookup_witness :
  exists names b,
    protocol_names example_db = Ok names
    /\ has_protocol example_db "far" = Ok b
    /\ (b = true <-> In "far" names)
    /\ (b = false <-> protocol example_db "far" = Err NoResultFound)
    /\ (forall p, protocol example_db "far" = Ok p ->
                  In p (tbl_protocol example_store) /\ protocol_name p = "far").
Proof.
  apply (protocol_lookup example_db example_store "far"). reflexivity.
Defined.

(** On a reachable store, [has_subworld] holds of exactly the names
    [subworld_names] lists, which are the names [subworlds] returns, in its
    order. *)
Theorem subworld_lookup (db : Database) (s : Store) (name : string) :
  session db = Some s ->
  exists l names b,
    subworlds db = Ok l
    /\ subworld_names db = Ok names
    /\ names = map subworld_name l
    /\ has_subworld db name = Ok b
    /\ (b = true <-> In name names).
Proof.
  intros Hs. destruct (with_session db s Hs) as [Hv [Hq [_ Hsn]]].
  exists (tbl_subworld s), (map subworld_name (tbl_subworld s)),
         (count_nonzero (filter (fun w => String.eqb (subworld_name w) name) (tbl_subworld s))).
  unfold has_subworld, subworlds. rewrite Hv, Hq. simpl.
  split; [reflexivity | split; [exact Hsn | split; [reflexivity | split; [reflexivity |]]]].
  rewrite count_nonzero_filter, in_map_iff. split.
  - intros [w [Hw Hn]]. apply String.eqb_eq in Hn. exists w. tauto.
  - intros [w [Hn Hw]]. exists w. rewrite String.eqb_eq. tauto.
Qed.

Lemma subworld_lookup_witness :
  exists l names b,
    subworlds example_db = Ok l
    /\ subworld_names example_db = Ok names
    /\ names = map subworld_name l
    /\ has_subworld example_db "onethird" = Ok b
    /\ (b = true <-> In "onethird" names).
Proof.
  apply (subworld_lookup example_db example_store "onethird"). reflexivity.
Defined.

(** ** Success and failure of the selectors *)

Ltac check_step H e :=
  match type of H with
  | context [check_validity ?l ?obj ?valid ?default] =>
      let Hc := fresh "Hc" in
      destruct (check_validity l obj valid default) as [? | ?] eqn:Hc; simpl in H;
      [| apply check_validity_Err in Hc; destruct Hc as [? ->];
         injection H as <-; do 3 eexists; split; [reflexivity | simpl; tauto]]
  end.

(** On a reachable store [clients] returns a list exactly when its five
    selectors are valid; any error it raises is the Invalid Selector error of
    one of them. *)
Theorem clients_succeeds_iff_valid (db : Database) (s : Store)
  (protocol groups_ subworld gender : arg string) (birthyear : arg Z) :
  session db = Some s ->
  ((exists l, clients db protocol groups_ subworld gender birthyear = Ok l)
   <-> exists pr gr sw ge bys,
         check_validity protocol "protocol" (map protocol_name (tbl_protocol s))
           (map protocol_name (tbl_protocol s)) = Ok pr
         /\ check_validity groups_ "group" groups groups = Ok gr
         /\ check_validity subworld "subworld" (map subworld_name (tbl_subworld s)) [] = Ok sw
         /\ check_validity gender "gender" genders [] = Ok ge
         /\ check_validity birthyear "birthyear" VALID_BIRTHYEARS [] = Ok bys)
  /\ (forall e, clients db protocol groups_ subworld gender birthyear = Err e ->
        exists obj k valid,
          e = InvalidSelector obj k valid
          /\ In obj ["protocol"; "group"; "subworld"; "gender"; "birthyear"]).
Proof.
  intros Hs. split; [split |].
  - intros [l H]. destruct (clients_Ok db s _ _ _ _ _ l Hs H)
      as [pr [gr [sw [ge [bys [Hpr [Hgr [Hsw [Hge [Hby _]]]]]]]]]].
    exists pr, gr, sw, ge, bys. tauto.
  - intros [pr [gr [sw [ge [bys [Hpr [Hgr [Hsw [Hge Hby]]]]]]]]].
    eexists. apply (clients_valid db s _ _ _ _ _ pr gr sw ge bys); assumption.
  - intros e H. unfold clients in H.
    destruct (with_session db s Hs) as [Hv [Hq [Hpn Hsn]]].
    rewrite Hv, Hpn, Hsn, Hq in H. simpl in H.
    do 5 check_step H e. discriminate H.
Qed.

Lemma clients_succeeds_iff_valid_witness :
  (exists l, clients example_db (Scalar "combined") (Scalar "dev") Absent (Scalar "f")
               (Seq [1990; 1985]) = Ok l)
  /\ exists obj k valid,
       clients example_db (Scalar "combined") (Scalar "test") Absent Absent Absent
       = Err (InvalidSelector obj k valid)
       /\ In obj ["protocol"; "group"; "subworld"; "gender"; "birthyear"].
Proof.
  split.
  - apply (clients_succeeds_iff_valid example_db example_store); [reflexivity |].
    do 5 eexists. repeat split; vm_compute; reflexivity.
  - destruct (clients_succeeds_iff_valid example_db example_store (Scalar "combined")
                (Scalar "test") Absent Absent Absent eq_refl) as [_ Herr].
    destruct (Herr (InvalidSelector "group" (PyStr "test") (map repr groups)))
      as [obj [k [valid [He Hobj]]]]; [vm_compute; reflexivity |].
    exists obj, k, valid. split; [rewrite <- He; vm_compute; reflexivity | exact Hobj].
Defined.

(** What [objects] returned, when it returns, with its validated selectors. *)
Lemma objects_Ok_checks (set_list : list File -> list File) (db : Database) (s : Store)
  (protocol purposes_ : arg string) (model_ids : arg Z)
  (groups_ classes subworld : arg string) (l : list File) :
  session db = Some s ->
  objects set_list db protocol purposes_ model_ids groups_ classes subworld = Ok l ->
  exists pr pu gr cl sw,
    check_validity protocol "protocol" (map protocol_name (tbl_protocol s))
      (map protocol_name (tbl_protocol s)) = Ok pr
    /\ check_validity purposes_ "purpose" purposes purposes = Ok pu
    /\ check_validity groups_ "group" groups groups = Ok gr
    /\ check_validity classes "class" ["client"; "impostor"] ["client"; "impostor"] = Ok cl
    /\ check_validity subworld "subworld" (map subworld_name (tbl_subworld s)) [] = Ok sw
    /\ l = set_list (objects_retval s pr pu (normalize_model_ids model_ids) gr cl sw).
Proof.
  intros Hs H. unfold objects in H.
  destruct (with_session db s Hs) as [Hv [Hq [Hpn Hsn]]].
  rewrite Hv, Hpn, Hsn, Hq in H. simpl in H.
  do 5 bind_inv H. simpl in H. injection H as <-.
  exists x, x0, x1, x2, x3. repeat split; assumption.
Qed.

(** On a reachable store [objects] returns a list exactly when its five
    selectors are valid, whatever the model ids, which are never checked;
    any error it raises is the Invalid Selector error of one of the
    selectors. *)
Theorem objects_succeeds_iff_valid (set_list : list File -> list File) (db : Database)
  (s : Store) (protocol purposes_ : arg string) (model_ids : arg Z)
  (groups_ classes subworld : arg string) :
  session db = Some s ->
  ((exists l, objects set_list db protocol purposes_ model_ids groups_ classes subworld = Ok l)
   <-> exists pr pu gr cl sw,
         check_validity protocol "protocol" (map protocol_name (tbl_protocol s))
           (map protocol_name (tbl_protocol s)) = Ok pr
         /\ check_validity purposes_ "purpose" purposes purposes = Ok pu
         /\ check_validity groups_ "group" groups groups = Ok gr
         /\ check_validity classes "class" ["client"; "impostor"] ["client"; "impostor"]
            = Ok cl
         /\ check_validity subworld "subworld" (map subworld_name (tbl_subworld s)) []
            = Ok sw)
  /\ (forall e,
        objects set_list db protocol purposes_ model_ids groups_ classes subworld = Err e ->
        exists obj k valid,
          e = InvalidSelector obj k valid
          /\ In obj ["protocol"; "purpose"; "group"; "class"; "subworld"]).
Proof.
  intros Hs. split; [split |].
  - intros [l H]. destruct (objects_Ok_checks set_list db s _ _ _ _ _ _ l Hs H)
      as [pr [pu [gr [cl [sw [Hpr [Hpu [Hgr [Hcl [Hsw _]]]]]]]]]].
    exists pr, pu, gr, cl, sw. tauto.
  - intros [pr [pu [gr [cl [sw [Hpr [Hpu [Hgr [Hcl Hsw]]]]]]]]].
    eexists. apply (objects_valid set_list db s _ _ _ _ _ _ pr pu gr cl sw); assumption.
  - intros e H. unfold objects in H.
    destruct (with_session db s Hs) as [Hv [Hq [Hpn Hsn]]].
    rewrite Hv, Hpn, Hsn, Hq in H. simpl in H.
    do 5 check_step H e. discriminate H.
Qed.

Lemma objects_succeeds_iff_valid_witness :
  (exists l, objects (fun l => l) example_db (Scalar "combined") (Scalar "probe")
               (Seq [47; 3]) (Scalar "dev") Absent Absent = Ok l)
  /\ exists obj k valid,
       objects (fun l => l) example_db (Scalar "unknown") Absent Absent Absent Absent Absent
       = Err (InvalidSelector obj k valid)
       /\ In obj ["protocol"; "purpose"; "group"; "class"; "subworld"].
Proof.
  split.
  - apply (objects_succeeds_iff_valid (fun l => l) example_db example_store);
      [reflexivity |].
    do 5 eexists. repeat split; vm_compute; reflexivity.
  - destruct (objects_succeeds_iff_valid (fun l => l) example_db example_store
                (Scalar "unknown") Absent Absent Absent Absent Absent eq_refl) as [_ Herr].
    destruct (Herr (InvalidSelector "protocol" (PyStr "unknown")
                      (map repr ["combined"; "close"])))
      as [obj [k [valid [He Hobj]]]]; [vm_compute; reflexivity |].
    exists obj, k, valid. split; [rewrite <- He; vm_compute; reflexivity | exact Hobj].
Defined.

(** ** Birth years *)

Lemma VALID_BIRTHYEARS_range (y : Z) : In y VALID_BIRTHYEARS <-> 1900 <= y < 2050.
Proof.
  unfold VALID_BIRTHYEARS. rewrite in_map_iff. split.
  - intros [n [Hn Hin]]. apply in_seq in Hin. lia.
  - intros Hy. exists (Z.to_nat y). split; [lia |]. apply in_seq. lia.
Qed.

Lemma fetch_clients_incl (q : list Client) (c : Client) :
  In c (fetch_clients q) -> In c q.
Proof.
  unfold fetch_clients. intros Hc. apply unique_by_incl in Hc.
  apply order_by_In in Hc. exact Hc.
Qed.

Lemma clients_retval_birthyear (s : Store) (gr : list string) (y : Z) (c : Client) :
  In c (clients_retval s gr [] [] [y]) -> In c (tbl_client s) /\ client_birthyear c = y.
Proof.
  intros Hc. apply in_clients_retval_branches in Hc.
  assert (Hy : forall q, In c (filter (fun d => py_in (client_birthyear d) [y]) q) ->
                         In c q /\ client_birthyear c = y).
  { intros q Hq. apply filter_In in Hq. destruct Hq as [Hq Hb].
    apply py_in_In in Hb. destruct Hb as [Hb | []]. split; [exact Hq | symmetry; exact Hb]. }
  destruct Hc as [[_ Hc] | [_ Hc]]; apply fetch_clients_incl in Hc;
    cbn [nonempty] in Hc; apply Hy in Hc; destruct Hc as [Hc Hb];
    apply filter_In in Hc; tauto.
Qed.

(** On a reachable store, and the other selectors being absent, [clients]
    accepts the birth year [y] exactly when [y] is [0], which is taken for no
    birth year at all, or lies from 1900 to 2049, and it then returns only
    clients born in [y]; the year 2050 and beyond, and any before 1900, are
    refused with the Invalid Selector error. *)
Theorem clients_birthyear_bounds (db : Database) (s : Store) (y : Z) :
  session db = Some s ->
  (y = 0 ->
     clients db Absent Absent Absent Absent (Scalar y)
     = clients db Absent Absent Absent Absent Absent)
  /\ (y <> 0 -> 1900 <= y < 2050 ->
        exists l,
          clients db Absent Absent Absent Absent (Scalar y) = Ok l
          /\ forall c, In c l -> In c (tbl_client s) /\ client_birthyear c = y)
  /\ (y <> 0 -> ~ 1900 <= y < 2050 ->
        clients db Absent Absent Absent Absent (Scalar y)
        = Err (InvalidSelector "birthyear" (PyInt y) (map repr VALID_BIRTHYEARS))).
Proof.
  intros Hs. split; [| split].
  - intros ->. reflexivity.
  - intros Hy Hr. exists (clients_retval s groups [] [] [y]). split.
    + apply (clients_valid db s _ _ _ _ _ (map protocol_name (tbl_protocol s)));
        try reflexivity; try exact Hs.
      apply check_validity_scalar_Ok.
      * simpl. apply negb_true_iff, Z.eqb_neq. exact Hy.
      * apply VALID_BIRTHYEARS_range. exact Hr.
    + apply clients_retval_birthyear.
  - intros Hy Hr. unfold clients.
    destruct (with_session db s Hs) as [Hv [Hq [Hpn Hsn]]].
    rewrite Hv, Hpn, Hsn. simpl.
    assert (Hc : check_validity (Scalar y) "birthyear" VALID_BIRTHYEARS []
                 = Err (InvalidSelector "birthyear" (PyInt y) (map repr VALID_BIRTHYEARS))).
    { unfold check_validity, check_validity_seq. cbn [py_not truth PyValue_Z].
      apply Z.eqb_neq in Hy. rewrite Hy. cbn [negb check_each].
      assert (Hin : py_in y VALID_BIRTHYEARS = false).
      { apply py_in_false. rewrite VALID_BIRTHYEARS_range. exact Hr. }
      rewrite Hin. reflexivity. }
    change (check_validity Absent "protocol" (map protocol_name (tbl_protocol s))
              (map protocol_name (tbl_protocol s)))
      with (@Ok (list string) (map protocol_name (tbl_protocol s))).
    cbn [bind].
    change (check_validity Absent "group" groups groups) with (@Ok (list string) groups).
    cbn [bind].
    change (check_validity Absent "subworld" (map subworld_name (tbl_subworld s)) [])
      with (@Ok (list string) []).
    cbn [bind].
    change (check_validity Absent "gender" genders []) with (@Ok (list string) []).
    cbn [bind]. rewrite Hc. reflexivity.
Qed.

Lemma clients_birthyear_bounds_witness :
  (exists l,
      clients example_db Absent Absent Absent Absent (Scalar 1985) = Ok l
      /\ forall c, In c l -> In c (tbl_client example_store) /\ client_birthyear c = 1985)
  /\ clients example_db Absent Absent Absent Absent (Scalar 2050)
     = Err (InvalidSelector "birthyear" (PyInt 2050) (map repr VALID_BIRTHYEARS))
  /\ clients example_db Absent Absent Absent Absent (Scalar 0)
     = clients example_db Absent Absent Absent Absent Absent.
Proof.
  destruct (clients_birthyear_bounds example_db example_store 1985 eq_refl) as [_ [Hin _]].
  destruct (clients_birthyear_bounds example_db example_store 2050 eq_refl) as [_ [_ Hout]].
  destruct (clients_birthyear_bounds example_db example_store 0 eq_refl) as [Hzero _].
  split; [apply Hin; lia | split; [apply Hout; lia | apply Hzero; reflexivity]].
Defined.

(** ** All clients *)

(** On a reachable store whose client identifiers are unique and whose
    clients are of the three groups, [clients] and [models] called with no
    argument return the same list, which holds every client of the store
    once. *)
Theorem clients_default_all (db : Database) (s : Store) :
  session db = Some s ->
  NoDup (map client_id (tbl_client s)) ->
  (forall c, In c (tbl_client s) -> In (client_sgroup c) group_choices) ->
  exists l,
    clients db Absent Absent Absent Absent Absent = Ok l
    /\ models db Absent Absent = Ok l
    /\ Permutation l (tbl_client s).
Proof.
  intros Hs Hnd Hgroups.
  exists (clients_retval s groups [] [] []).
  assert (Hc : clients db Absent Absent Absent Absent Absent
               = Ok (clients_retval s groups [] [] [])).
  { apply (clients_valid db s _ _ _ _ _ (map protocol_name (tbl_protocol s)));
      try reflexivity. exact Hs. }
  split; [exact Hc | split; [exact Hc |]].
  apply NoDup_Permutation.
  - apply (NoDup_map_inv client_id), clients_retval_ids, Hnd.
  - apply (NoDup_map_inv client_id), Hnd.
  - intros c. rewrite (in_clients_retval s groups [] [] [] c Hnd); [| tauto].
    unfold client_selected. split; [tauto |].
    intros Hc'. split; [exact Hc' | split; [apply Hgroups; exact Hc' |]].
    split; [congruence | split; congruence].
Qed.

Lemma clients_default_all_witness :
  exists l,
    clients example_db Absent Absent Absent Absent Absent = Ok l
    /\ models example_db Absent Absent = Ok l
    /\ Permutation l (tbl_client example_store).
Proof.
  apply (clients_default_all example_db example_store).
  - reflexivity.
  - exact example_store_client_ids.
  - exact example_store_groups.
Defined.

(** ** More on distinct results *)

Lemma filter_nil_In {A : Type} (f : A -> bool) (l : list A) :
  (forall a, In a l -> f a = false) -> filter f l = [].
Proof.
  induction l as [| a l IH]; simpl; intros Hf; [reflexivity |].
  rewrite (Hf a (or_introl eq_refl)). apply IH. intros b Hb. apply Hf. right. exact Hb.
Qed.

Lemma filter_filter_andb {A : Type} (f g : A -> bool) (l : list A) :
  filter f (filter g l) = filter (fun a => g a && f a) l.
Proof.
  induction l as [| a l IH]; simpl; [reflexivity |].
  destruct (g a); simpl; [destruct (f a) |]; rewrite IH; reflexivity.
Qed.

(** The keys of [l] come first: the entities of [m] that are kept are those
    of a key that [l] does not have. *)
Lemma unique_by_app {A : Type} (key : A -> Z) (l m : list A) :
  unique_by key (l ++ m)
  = unique_by key l
    ++ filter (fun y => negb (existsb (fun x => Z.eqb (key y) (key x)) l)) (unique_by key m).
Proof.
  induction l as [| a l IH]; simpl.
  - rewrite filter_true. reflexivity.
  - rewrite IH, filter_app, filter_filter_andb. f_equal. f_equal.
    apply filter_ext. intros y.
    destruct (Z.eqb (key y) (key a)); simpl; [rewrite andb_false_r |rewrite andb_true_r];
      reflexivity.
Qed.

Lemma unique_by_app_absorb {A : Type} (key : A -> Z) (l m : list A) :
  incl m l -> unique_by key (l ++ m) = unique_by key l.
Proof.
  intros Hm. rewrite unique_by_app, filter_nil_In; [apply app_nil_r |].
  intros y Hy. apply unique_by_incl in Hy. apply negb_false_iff, existsb_exists.
  exists y. split; [apply Hm; exact Hy | apply Z.eqb_refl].
Qed.

(** ** The branches of [objects] *)

Lemma fetch_files_rows (q : list FileRow) (f : File) :
  In f (fetch_files q) -> exists r, In r q /\ row_file r = f.
Proof.
  unfold fetch_files. intros Hf. apply unique_by_incl in Hf. apply in_map_iff in Hf.
  destruct Hf as [r [Hr Hin]]. apply order_by_In in Hin. exists r. tauto.
Qed.

Lemma fetch_files_ids (q : list FileRow) : NoDup (map file_id (fetch_files q)).
Proof. apply unique_by_NoDup. Qed.

Lemma in_objects_probe_client (s : Store) (protocol groups : list string)
  (model_ids : list Z) (f : File) :
  NoDup (map file_id (tbl_file s)) ->
  In f (objects_probe_client s protocol groups model_ids) <->
  file_serves s protocol groups "probe" f
  /\ (model_ids <> [] -> In (file_client_id f) model_ids).
Proof.
  intros Hnd. unfold objects_probe_client.
  rewrite <- purpose_filter_serves. rewrite (in_fetch_files s).
  - split.
    + intros [r [Hr Hf]]. apply in_if_filter in Hr. destruct Hr as [Hr Hm].
      split; [exists r; tauto |]. intros Hne. apply Hm, py_in_In in Hne.
      apply filter_In in Hr. destruct Hr as [Hr _]. apply in_file_query in Hr.
      subst f. destruct Hr as [_ [_ [-> _]]]. exact Hne.
    + intros [[r [Hr Hf]] Hm]. exists r. split; [| exact Hf].
      apply in_if_filter. split; [exact Hr |]. intros Hne. apply py_in_In.
      apply filter_In in Hr. destruct Hr as [Hr _]. apply in_file_query in Hr.
      destruct Hr as [_ [_ [<- _]]]. rewrite Hf. apply Hm. exact Hne.
  - exact Hnd.
  - intros r Hr. apply in_if_filter in Hr. destruct Hr as [Hr _].
    apply filter_In in Hr. tauto.
Qed.

(** On a store whose file identifiers are unique, the probe files against
    one model [m] split in two: the client branch holds the probe files of
    the client [m], the impostor branch those of every other client, and the
    two together are the probe files returned when no model is given. *)
Theorem probe_files_split_by_model (s : Store) (protocol groups : list string) (m : Z) :
  NoDup (map file_id (tbl_file s)) ->
  (forall f, In f (objects_probe_client s protocol groups [m]) <->
             file_serves s protocol groups "probe" f /\ file_client_id f = m)
  /\ (forall f, In f (objects_probe_impostor s protocol groups [m]) <->
                file_serves s protocol groups "probe" f /\ file_client_id f <> m)
  /\ (forall f, In f (objects_probe_client s protocol groups [m]) ->
                ~ In f (objects_probe_impostor s protocol groups [m]))
  /\ Permutation
       (objects_probe_client s protocol groups [m]
        ++ objects_probe_impostor s protocol groups [m])
       (objects_probe_client s protocol groups []).
Proof.
  intros Hnd.
  assert (Hc : forall f, In f (objects_probe_client s protocol groups [m]) <->
                         file_serves s protocol groups "probe" f /\ file_client_id f = m).
  { intros f. rewrite (in_objects_probe_client s _ _ _ f Hnd). simpl. split.
    - intros [Hf Hm]. split; [exact Hf |].
      destruct Hm as [Hm | []]; [discriminate | symmetry; exact Hm].
    - intros [Hf Hm]. split; [exact Hf | intros _; left; symmetry; exact Hm]. }
  assert (Hi : forall f, In f (objects_probe_impostor s protocol groups [m]) <->
                         file_serves s protocol groups "probe" f /\ file_client_id f <> m).
  { intros f. rewrite (in_objects_probe_impostor s _ _ _ f Hnd). simpl. split.
    - intros [Hf Hm]. split; [exact Hf |]. intros Heq. apply Hm; [reflexivity |].
      left. symmetry. exact Heq.
    - intros [Hf Hm]. split; [exact Hf |]. intros _ [Heq | []]. apply Hm. symmetry. exact Heq. }
  assert (Hd : forall f, In f (objects_probe_client s protocol groups [m]) ->
                         ~ In f (objects_probe_impostor s protocol groups [m])).
  { intros f Hf1 Hf2. apply Hc in Hf1. apply Hi in Hf2. tauto. }
  split; [exact Hc | split; [exact Hi | split; [exact Hd |]]].
  apply NoDup_Permutation.
  - apply NoDup_app; [| | exact Hd]; apply (NoDup_map_inv file_id), fetch_files_ids.
  - apply (NoDup_map_inv file_id), fetch_files_ids.
  - intros f. rewrite in_app_iff, Hc, Hi, (in_objects_probe_client s _ _ _ f Hnd).
    split; [tauto |]. intros [Hf _].
    destruct (Z.eq_dec (file_client_id f) m); tauto.
Qed.

(** The dev probes of the small catalogue against the model 3: the file 4 of
    the client 3 on one side, the file 5 of the client 4 on the other. *)
Lemma probe_files_split_by_model_witness :
  List.length (objects_probe_client example_store ["combined"] ["dev"] [3]) = 1%nat
  /\ List.length (objects_probe_impostor example_store ["combined"] ["dev"] [3]) = 1%nat
  /\ Permutation
       (objects_probe_client example_store ["combined"] ["dev"] [3]
        ++ objects_probe_impostor example_store ["combined"] ["dev"] [3])
       (objects_probe_client example_store ["combined"] ["dev"] []).
Proof.
  split; [vm_compute; reflexivity | split; [vm_compute; reflexivity |]].
  apply (probe_files_split_by_model example_store ["combined"] ["dev"] 3).
  exact example_store_file_ids.
Defined.

Lemma check_group_world :
  check_validity (Scalar "world") "group" groups groups = Ok ["world"].
Proof. reflexivity. Qed.

Lemma check_class_client :
  check_validity (Scalar "client") "class" ["client"; "impostor"] ["client"; "impostor"]
  = Ok ["client"].
Proof. reflexivity. Qed.

Lemma check_class_impostor :
  check_validity (Scalar "impostor") "class" ["client"; "impostor"] ["client"; "impostor"]
  = Ok ["impostor"].
Proof. reflexivity. Qed.

Lemma objects_retval_world_only (s : Store) (pr pu : list string) (mids : list Z)
  (cl sw : list string) :
  objects_retval s pr pu mids ["world"] cl sw = objects_world s pr mids sw.
Proof. reflexivity. Qed.

(** For the group ['world'] alone, [objects] does not depend on the purposes
    and the classes it is given, as long as they are valid: on a reachable
    store two calls that differ in them only return the same result. *)
Theorem objects_world_ignores_purposes (set_list : list File -> list File) (db : Database)
  (s : Store) (protocol pu1 pu2 : arg string) (model_ids : arg Z)
  (cl1 cl2 subworld : arg string) (a b c d : list string) :
  session db = Some s ->
  check_validity pu1 "purpose" purposes purposes = Ok a ->
  check_validity pu2 "purpose" purposes purposes = Ok b ->
  check_validity cl1 "class" ["client"; "impostor"] ["client"; "impostor"] = Ok c ->
  check_validity cl2 "class" ["client"; "impostor"] ["client"; "impostor"] = Ok d ->
  objects set_list db protocol pu1 model_ids (Scalar "world") cl1 subworld
  = objects set_list db protocol pu2 model_ids (Scalar "world") cl2 subworld.
Proof.
  intros Hs Ha Hb Hc Hd. unfold objects.
  destruct (with_session db s Hs) as [Hv [Hq [Hpn Hsn]]].
  rewrite Hv, Hpn, Hsn, Hq. cbn [bind].
  destruct (check_validity protocol "protocol" (map protocol_name (tbl_protocol s))
              (map protocol_name (tbl_protocol s))) as [pr | e]; cbn [bind];
    [| reflexivity].
  rewrite Ha, Hb, check_group_world. cbn [bind]. rewrite Hc, Hd. cbn [bind].
  destruct (check_validity subworld "subworld" (map subworld_name (tbl_subworld s)) [])
    as [sw | e]; cbn [bind]; [| reflexivity].
  rewrite !objects_retval_world_only. reflexivity.
Qed.

(** The world files of the protocol combined, asked with the purpose train
    and with no purpose. *)
Lemma objects_world_ignores_purposes_witness :
  objects (fun l => l) example_db (Scalar "combined") (Scalar "train") Absent
    (Scalar "world") Absent Absent
  = objects (fun l => l) example_db (Scalar "combined") Absent Absent
      (Scalar "world") (Scalar "impostor") Absent.
Proof.
  apply (objects_world_ignores_purposes (fun l => l) example_db example_store
           (Scalar "combined") (Scalar "train") Absent Absent Absent (Scalar "impostor") Absent
           ["train"] purposes ["client"; "impostor"] ["impostor"]);
    reflexivity.
Defined.

Lemma objects_retval_classes (s : Store) (pr pu gr sw : list string) :
  objects_retval s pr pu [] gr ["client"] sw = objects_retval s pr pu [] gr ["impostor"] sw
  /\ unique_by file_id (objects_retval s pr pu [] gr ["client"; "impostor"] sw)
     = unique_by file_id (objects_retval s pr pu [] gr ["client"] sw).
Proof.
  unfold objects_retval.
  change (py_in "client" ["client"]) with true.
  change (py_in "impostor" ["client"]) with false.
  change (py_in "client" ["impostor"]) with false.
  change (py_in "impostor" ["impostor"]) with true.
  change (py_in "client" ["client"; "impostor"]) with true.
  change (py_in "impostor" ["client"; "impostor"]) with true.
  change (objects_probe_impostor s pr gr []) with (objects_probe_client s pr gr []).
  destruct (py_in "world" gr); destruct (py_in "dev" gr || py_in "eval" gr);
    destruct (py_in "enrol" pu); destruct (py_in "probe" pu);
    cbv iota; (split; [reflexivity |]); try reflexivity;
    apply unique_by_app_absorb; intros f Hf; apply in_app_iff; right; exact Hf.
Qed.

(** When no model id is given, the class does not change the files
    [objects] returns: the calls for the class client and for the class
    impostor return the same result, and the call for both classes returns
    the same files, the probe files accumulated twice being listed once. *)
Theorem objects_classes_without_model_ids (set_list : list File -> list File)
  (db : Database) (protocol purposes_ groups_ subworld : arg string) :
  objects set_list db protocol purposes_ Absent groups_ (Scalar "client") subworld
  = objects set_list db protocol purposes_ Absent groups_ (Scalar "impostor") subworld
  /\ (set_list_spec set_list ->
      forall l1 l2,
        objects set_list db protocol purposes_ Absent groups_ (Scalar "client") subworld
        = Ok l1 ->
        objects set_list db protocol purposes_ Absent groups_ Absent subworld = Ok l2 ->
        Permutation l1 l2).
Proof.
  split.
  - unfold objects.
    destruct (assert_validity db); cbn [bind]; [| reflexivity].
    destruct (protocol_names db) as [vp | e]; cbn [bind]; [| reflexivity].
    destruct (subworld_names db) as [vs | e]; cbn [bind]; [| reflexivity].
    destruct (check_validity protocol "protocol" vp vp) as [pr | e]; cbn [bind];
      [| reflexivity].
    destruct (check_validity purposes_ "purpose" purposes purposes) as [pu | e]; cbn [bind];
      [| reflexivity].
    destruct (check_validity groups_ "group" groups groups) as [gr | e]; cbn [bind];
      [| reflexivity].
    rewrite check_class_client, check_class_impostor. cbn [bind].
    destruct (check_validity subworld "subworld" vs []) as [sw | e]; cbn [bind];
      [| reflexivity].
    destruct (session_query db) as [s | e]; cbn [bind]; [| reflexivity].
    cbn [normalize_model_ids].
    rewrite (proj1 (objects_retval_classes s pr pu gr sw)). reflexivity.
  - intros Hset l1 l2 H1 H2.
    destruct (objects_Ok _ _ _ _ _ _ _ _ _ H1) as [s [_ [_ [_ [_ [_ [Hs _]]]]]]].
    destruct (objects_Ok_checks _ _ s _ _ _ _ _ _ _ Hs H1)
      as [pr [pu [gr [cl [sw [Hpr [Hpu [Hgr [Hcl [Hsw ->]]]]]]]]]].
    destruct (objects_Ok_checks _ _ s _ _ _ _ _ _ _ Hs H2)
      as [pr' [pu' [gr' [cl' [sw' [Hpr' [Hpu' [Hgr' [Hcl' [Hsw' ->]]]]]]]]]].
    rewrite Hpr in Hpr'. rewrite Hpu in Hpu'. rewrite Hgr in Hgr'. rewrite Hsw in Hsw'.
    injection Hpr' as <-. injection Hpu' as <-. injection Hgr' as <-. injection Hsw' as <-.
    rewrite check_class_client in Hcl. injection Hcl as <-. injection Hcl' as <-.
    cbn [normalize_model_ids].
    apply Permutation_trans
      with (unique_by file_id (objects_retval s pr pu [] gr ["client"] sw)); [apply Hset |].
    rewrite <- (proj2 (objects_retval_classes s pr pu gr sw)).
    apply Permutation_sym, Hset.
Qed.

(** The dev probes of the small catalogue under the protocol combined. *)
Lemma objects_classes_without_model_ids_witness :
  exists l1 l2,
    objects (unique_by file_id) example_db (Scalar "combined") (Scalar "probe") Absent
      (Scalar "dev") (Scalar "client") Absent = Ok l1
    /\ objects (unique_by file_id) example_db (Scalar "combined") (Scalar "probe") Absent
         (Scalar "dev") Absent Absent = Ok l2
    /\ Permutation l1 l2.
Proof.
  do 2 eexists. split; [vm_compute; reflexivity | split; [vm_compute; reflexivity |]].
  apply (objects_classes_without_model_ids (unique_by file_id) example_db
           (Scalar "combined") (Scalar "probe") (Scalar "dev") Absent).
  - intros l. apply Permutation_refl.
  - vm_compute. reflexivity.
  - vm_compute. reflexivity.
Defined.

Lemma model_filter_owner (s : Store) (q : list FileRow) (model_ids : list Z) (f : File) :
  (forall r, In r q -> In r (file_query s)) ->
  model_ids <> [] ->
  In f (fetch_files (if nonempty model_ids
                     then filter (fun r => py_in (client_id (row_client r)) model_ids) q
                     else q)) ->
  In (file_client_id f) model_ids /\ In (file_client_id f) (map client_id (tbl_client s)).
Proof.
  intros Hq Hne Hf. apply fetch_files_rows in Hf. destruct Hf as [r [Hr <-]].
  apply in_if_filter in Hr. destruct Hr as [Hr Hm].
  apply Hm, py_in_In in Hne. apply Hq, in_file_query in Hr.
  destruct Hr as [_ [Hc [-> _]]]. split; [exact Hne | apply in_map; exact Hc].
Qed.

Lemma objects_retval_client_owner (s : Store) (pr pu : list string) (mids : list Z)
  (gr sw : list string) (f : File) :
  mids <> [] ->
  In f (objects_retval s pr pu mids gr ["client"] sw) ->
  In (file_client_id f) mids /\ In (file_client_id f) (map client_id (tbl_client s)).
Proof.
  intros Hne Hf.
  assert (Hw : In f (objects_world s pr mids sw) ->
               In (file_client_id f) mids
               /\ In (file_client_id f) (map client_id (tbl_client s))).
  { unfold objects_world. apply model_filter_owner; [| exact Hne].
    intros r Hr. apply filter_In in Hr. destruct Hr as [Hr _].
    destruct (nonempty sw); [apply in_join_subworld in Hr; tauto | exact Hr]. }
  assert (He : In f (objects_enrol s pr gr mids) ->
               In (file_client_id f) mids
               /\ In (file_client_id f) (map client_id (tbl_client s))).
  { unfold objects_enrol. apply model_filter_owner; [| exact Hne].
    intros r Hr. apply filter_In in Hr. tauto. }
  assert (Hp : In f (objects_probe_client s pr gr mids) ->
               In (file_client_id f) mids
               /\ In (file_client_id f) (map client_id (tbl_client s))).
  { unfold objects_probe_client. apply model_filter_owner; [| exact Hne].
    intros r Hr. apply filter_In in Hr. tauto. }
  unfold objects_retval in Hf.
  change (py_in "client" ["client"]) with true in Hf.
  change (py_in "impostor" ["client"]) with false in Hf.
  destruct (py_in "world" gr); destruct (py_in "dev" gr || py_in "eval" gr);
    destruct (py_in "enrol" pu); destruct (py_in "probe" pu);
    cbv iota in Hf; rewrite ?in_app_iff in Hf; simpl in Hf; tauto.
Qed.

(** With the class ['client'] and model ids given, every file [objects]
    returns is owned by one of the model ids, which is then a client of the
    store: the model ids of no client select no file. *)
Theorem objects_client_class_owner (set_list : list File -> list File) (db : Database)
  (s : Store) (protocol purposes_ : arg string) (model_ids : arg Z)
  (groups_ subworld : arg string) (l : list File) :
  set_list_spec set_list ->
  session db = Some s ->
  normalize_model_ids model_ids <> [] ->
  objects set_list db protocol purposes_ model_ids groups_ (Scalar "client") subworld = Ok l ->
  forall f, In f l ->
            In (file_client_id f) (normalize_model_ids model_ids)
            /\ In (file_client_id f) (map client_id (tbl_client s)).
Proof.
  intros Hset Hs Hne H f Hf.
  destruct (objects_Ok_checks _ _ s _ _ _ _ _ _ _ Hs H)
    as [pr [pu [gr [cl [sw [_ [_ [_ [Hcl [_ ->]]]]]]]]]].
  rewrite check_class_client in Hcl. injection Hcl as <-.
  apply (Permutation_in _ (Hset _)) in Hf. apply unique_by_incl in Hf.
  apply (objects_retval_client_owner s pr pu _ gr sw f Hne Hf).
Qed.

(** The files of the model 3 in the small catalogue, and those of the model
    47, which is the identifier of no client. *)
Lemma objects_client_class_owner_witness :
  (exists l, objects (unique_by file_id) example_db Absent Absent (Scalar 3) Absent
               (Scalar "client") Absent = Ok l
             /\ List.length l = 2%nat
             /\ forall f, In f l -> In (file_client_id f) [3])
  /\ objects (unique_by file_id) example_db Absent Absent (Scalar 47) Absent
       (Scalar "client") Absent = Ok [].
Proof.
  split; [| vm_compute; reflexivity].
  eexists. split; [vm_compute; reflexivity | split; [reflexivity |]].
  intros f Hf.
  apply (objects_client_class_owner (unique_by file_id) example_db example_store
           Absent Absent (Scalar 3) Absent Absent _ (fun l => Permutation_refl _)
           eq_refl ltac:(discriminate) eq_refl f Hf).
Defined.

(** ** The cohorts of the score normalisations *)

Lemma tobjects_valid (db : Database) (s : Store) (protocol : arg string) (model_ids : arg Z)
  (groups_ : arg string) (pr gr : list string) :
  session db = Some s ->
  check_validity protocol "protocol" (map protocol_name (tbl_protocol s))
    (map protocol_name (tbl_protocol s)) = Ok pr ->
  check_validity groups_ "group" groups groups = Ok gr ->
  tobjects db protocol model_ids groups_
  = Ok (cohort_files s pr (normalize_model_ids model_ids) ["onethird"] ["frontal"])
  /\ zobjects db protocol model_ids groups_
     = Ok (cohort_files s pr (normalize_model_ids model_ids) ["onethird"]
             ["cam1"; "cam2"; "cam3"; "cam4"; "cam5"]).
Proof.
  intros Hs Hpr Hgr. unfold tobjects, zobjects.
  destruct (with_session db s Hs) as [_ [Hq [Hpn _]]].
  rewrite Hpn. cbn [bind]. rewrite Hpr. cbn [bind]. rewrite Hgr. cbn [bind].
  rewrite Hq. split; reflexivity.
Qed.

Lemma tobjects_Ok (db : Database) (s : Store) (protocol : arg string) (model_ids : arg Z)
  (groups_ : arg string) (l : list File) :
  session db = Some s ->
  tobjects db protocol model_ids groups_ = Ok l
  \/ zobjects db protocol model_ids groups_ = Ok l ->
  exists pr gr,
    check_validity protocol "protocol" (map protocol_name (tbl_protocol s))
      (map protocol_name (tbl_protocol s)) = Ok pr
    /\ check_validity groups_ "group" groups groups = Ok gr.
Proof.
  intros Hs H. unfold tobjects, zobjects in H.
  destruct (with_session db s Hs) as [_ [_ [Hpn _]]].
  rewrite Hpn in H. cbn [bind] in H.
  destruct (check_validity protocol "protocol" (map protocol_name (tbl_protocol s))
              (map protocol_name (tbl_protocol s))) as [pr | e]; cbn [bind] in H;
    [| destruct H; discriminate].
  destruct (check_validity groups_ "group" groups groups) as [gr | e]; cbn [bind] in H;
    [| destruct H; discriminate].
  exists pr, gr. split; reflexivity.
Qed.

Lemma in_cohort_files (s : Store) (protocol : list string) (model_ids : list Z)
  (subworld validcam : list string) (f : File) :
  NoDup (map file_id (tbl_file s)) ->
  In f (cohort_files s protocol model_ids subworld validcam) <->
  cohort_file s protocol subworld validcam f
  /\ (model_ids <> [] -> In (file_client_id f) model_ids).
Proof.
  intros Hnd. unfold cohort_files, cohort_file, member_of.
  rewrite (in_fetch_files s); [| exact Hnd |].
  - split.
    + intros [r [Hr Hf]]. apply in_if_filter in Hr. destruct Hr as [Hr Hm].
      apply filter_In in Hr. destruct Hr as [Hr Hp].
      apply in_join_subworld in Hr. destruct Hr as [Hr Hw].
      apply in_file_query in Hr.
      rewrite !andb_true_iff, !py_in_In, String.eqb_eq in Hp. subst f.
      split; [split; [tauto | split; [tauto |]] |].
      * exists (row_client r), (row_pp r), (row_protocol r). tauto.
      * intros Hne. apply Hm, py_in_In in Hne. destruct Hr as [_ [_ [-> _]]]. exact Hne.
    + intros [[Hf [Hcam [c [pp [p H]]]]] Hm]. exists (f, c, pp, p). split; [| reflexivity].
      apply in_if_filter. split.
      * apply filter_In. split.
        -- apply in_join_subworld. split.
           ++ apply in_file_query. unfold row_file, row_client, row_pp, row_protocol.
              simpl. tauto.
           ++ unfold row_client. simpl. tauto.
        -- unfold row_file, row_pp, row_protocol. simpl.
           rewrite !andb_true_iff, !py_in_In, String.eqb_eq. tauto.
      * intros Hne. apply py_in_In. unfold row_client. simpl.
        destruct H as [_ [<- _]]. apply Hm. exact Hne.
  - intros r Hr. apply in_if_filter in Hr. destruct Hr as [Hr _].
    apply filter_In in Hr. destruct Hr as [Hr _]. apply in_join_subworld in Hr. tauto.
Qed.

Lemma in_objects_world_subworld (s : Store) (protocol : list string) (model_ids : list Z)
  (subworld : list string) (f : File) :
  NoDup (map file_id (tbl_file s)) ->
  subworld <> [] ->
  In f (objects_world s protocol model_ids subworld) <->
  cohort_file s protocol subworld [file_camera f] f
  /\ (model_ids <> [] -> In (file_client_id f) model_ids).
Proof.
  intros Hnd Hsw. unfold objects_world, cohort_file, member_of.
  destruct subworld as [| n ns]; [congruence |]. cbn [nonempty].
  rewrite (in_fetch_files s); [| exact Hnd |].
  - split.
    + intros [r [Hr Hf]]. apply in_if_filter in Hr. destruct Hr as [Hr Hm].
      apply filter_In in Hr. destruct Hr as [Hr Hp].
      apply in_join_subworld in Hr. destruct Hr as [Hr Hw].
      apply in_file_query in Hr.
      rewrite !andb_true_iff, !py_in_In, String.eqb_eq in Hp. subst f.
      split; [split; [tauto | split; [left; reflexivity |]] |].
      * exists (row_client r), (row_pp r), (row_protocol r). tauto.
      * intros Hne. apply Hm, py_in_In in Hne. destruct Hr as [_ [_ [-> _]]]. exact Hne.
    + intros [[Hf [_ [c [pp [p H]]]]] Hm]. exists (f, c, pp, p). split; [| reflexivity].
      apply in_if_filter. split.
      * apply filter_In. split.
        -- apply in_join_subworld. split.
           ++ apply in_file_query. unfold row_file, row_client, row_pp, row_protocol.
              simpl. tauto.
           ++ unfold row_client. simpl. tauto.
        -- unfold row_pp, row_protocol. simpl.
           rewrite !andb_true_iff, !py_in_In, String.eqb_eq. tauto.
      * intros Hne. apply py_in_In. unfold row_client. simpl.
        destruct H as [_ [<- _]]. apply Hm. exact Hne.
  - intros r Hr. apply in_if_filter in Hr. destruct Hr as [Hr _].
    apply filter_In in Hr. destruct Hr as [Hr _]. apply in_join_subworld in Hr. tauto.
Qed.

(** On a reachable store whose file identifiers are unique, [tobjects]
    returns the frontal images and [zobjects] the images of the cameras cam1
    to cam5 of the world clients of the subworld onethird, under the
    protocols and for the model ids asked; no file is in both; and the two
    together are the files of the world branch of [objects] for the subworld
    onethird that are taken by one of these six cameras. *)
Theorem cohorts_by_camera (db : Database) (s : Store) (protocol : arg string)
  (model_ids : arg Z) (groups_ : arg string) (lt lz : list File) :
  session db = Some s ->
  NoDup (map file_id (tbl_file s)) ->
  tobjects db protocol model_ids groups_ = Ok lt ->
  zobjects db protocol model_ids groups_ = Ok lz ->
  exists pr,
    check_validity protocol "protocol" (map protocol_name (tbl_protocol s))
      (map protocol_name (tbl_protocol s)) = Ok pr
    /\ (forall f, In f lt <->
                  cohort_file s pr ["onethird"] ["frontal"] f
                  /\ (normalize_model_ids model_ids <> [] ->
                      In (file_client_id f) (normalize_model_ids model_ids)))
    /\ (forall f, In f lz <->
                  cohort_file s pr ["onethird"] ["cam1"; "cam2"; "cam3"; "cam4"; "cam5"] f
                  /\ (normalize_model_ids model_ids <> [] ->
                      In (file_client_id f) (normalize_model_ids model_ids)))
    /\ (forall f, In f lt -> ~ In f lz)
    /\ (forall f, In f lt \/ In f lz <->
                  In f (objects_world s pr (normalize_model_ids model_ids) ["onethird"])
                  /\ In (file_camera f)
                       ["frontal"; "cam1"; "cam2"; "cam3"; "cam4"; "cam5"]).
Proof.
  intros Hs Hnd Ht Hz.
  destruct (tobjects_Ok db s _ _ _ lt Hs (or_introl Ht)) as [pr [gr [Hpr Hgr]]].
  destruct (tobjects_valid db s protocol model_ids groups_ pr gr Hs Hpr Hgr) as [Ht' Hz'].
  rewrite Ht' in Ht. rewrite Hz' in Hz. injection Ht as <-. injection Hz as <-.
  exists pr. split; [exact Hpr |].
  set (mids := normalize_model_ids model_ids).
  assert (HT := fun f => in_cohort_files s pr mids ["onethird"] ["frontal"] f Hnd).
  assert (HZ := fun f => in_cohort_files s pr mids ["onethird"]
                           ["cam1"; "cam2"; "cam3"; "cam4"; "cam5"] f Hnd).
  split; [exact HT | split; [exact HZ | split]].
  - intros f Hft Hfz. apply HT in Hft. apply HZ in Hfz.
    destruct Hft as [[_ [Hc _]] _]. destruct Hfz as [[_ [Hc' _]] _].
    simpl in Hc, Hc'. destruct Hc as [Hc | []]. rewrite <- Hc in Hc'.
    intuition discriminate.
  - intros f. rewrite HT, HZ.
    rewrite (in_objects_world_subworld s pr mids ["onethird"] f Hnd); [| discriminate].
    unfold cohort_file. simpl. intuition.
Qed.

(** The world files of the subworld onethird of the small catalogue: the one
    file of the client 1, a frontal image. *)
Lemma cohorts_by_camera_witness :
  exists lt lz pr,
    tobjects example_db Absent Absent Absent = Ok lt
    /\ zobjects example_db Absent Absent Absent = Ok lz
    /\ List.length lt = 1%nat
    /\ (forall f, In f lt -> ~ In f lz)
    /\ (forall f, In f lt \/ In f lz <->
                  In f (objects_world example_store pr [] ["onethird"])
                  /\ In (file_camera f)
                       ["frontal"; "cam1"; "cam2"; "cam3"; "cam4"; "cam5"]).
Proof.
  destruct (cohorts_by_camera example_db example_store Absent Absent Absent
              (cohort_files example_store ["combined"; "close"] [] ["onethird"] ["frontal"])
              (cohort_files example_store ["combined"; "close"] [] ["onethird"]
                 ["cam1"; "cam2"; "cam3"; "cam4"; "cam5"])
              eq_refl example_store_file_ids eq_refl eq_refl)
    as [pr [_ [_ [_ [Hd Hu]]]]].
  do 2 eexists. exists pr.
  split; [reflexivity | split; [reflexivity | split; [vm_compute; reflexivity |]]].
  split; [exact Hd | exact Hu].
Defined.

(** Unlike [tclients] and [zclients], [tobjects] and [zobjects] check their
    [groups] argument, and then make no use of it: on a reachable store two
    valid values give the same result, and a value that is not valid raises
    its Invalid Selector error once the protocol has passed. *)
Theorem cohorts_check_groups_only (db : Database) (s : Store) (protocol : arg string)
  (model_ids : arg Z) :
  session db = Some s ->
  (forall g1 g2 a b,
      check_validity g1 "group" groups groups = Ok a ->
      check_validity g2 "group" groups groups = Ok b ->
      tobjects db protocol model_ids g1 = tobjects db protocol model_ids g2
      /\ zobjects db protocol model_ids g1 = zobjects db protocol model_ids g2)
  /\ (forall g pr e,
        check_validity protocol "protocol" (map protocol_name (tbl_protocol s))
          (map protocol_name (tbl_protocol s)) = Ok pr ->
        check_validity g "group" groups groups = Err e ->
        tobjects db protocol model_ids g = Err e
        /\ zobjects db protocol model_ids g = Err e).
Proof.
  intros Hs. destruct (with_session db s Hs) as [_ [Hq [Hpn _]]]. split.
  - intros g1 g2 a b Ha Hb. unfold tobjects, zobjects.
    rewrite Hpn. cbn [bind].
    destruct (check_validity protocol "protocol" (map protocol_name (tbl_protocol s))
                (map protocol_name (tbl_protocol s))) as [pr | e]; cbn [bind];
      [| split; reflexivity].
    rewrite Ha, Hb. split; reflexivity.
  - intros g pr e Hpr He. unfold tobjects, zobjects.
    rewrite Hpn. cbn [bind]. rewrite Hpr. cbn [bind]. rewrite He. split; reflexivity.
Qed.

Lemma cohorts_check_groups_only_witness :
  tobjects example_db Absent Absent (Scalar "dev")
  = tobjects example_db Absent Absent (Seq ["eval"; "world"])
  /\ zobjects example_db Absent Absent (Scalar "test")
     = Err (InvalidSelector "group" (PyStr "test") (map repr groups)).
Proof.
  destruct (cohorts_check_groups_only example_db example_store Absent Absent eq_refl)
    as [Hsame Herr].
  split.
  - apply (Hsame (Scalar "dev") (Seq ["eval"; "world"]) ["dev"] ["eval"; "world"]);
      reflexivity.
  - apply (Herr (Scalar "test") ["combined"; "close"]); reflexivity.
Defined.

(** ** The order of the files *)

Lemma string_compare_Gt (a b : string) :
  String.compare a b = Gt -> String.compare b a = Lt.
Proof.
  intros H. rewrite String.compare_antisym, H. reflexivity.
Qed.

Lemma string_compare_Lt_trans (a b c : string) :
  String.compare a b = Lt -> String.compare b c = Lt -> String.compare a c = Lt.
Proof.
  intros Hab Hbc.
  apply OrderedTypeEx.String_as_OT.cmp_lt in Hab.
  apply OrderedTypeEx.String_as_OT.cmp_lt in Hbc.
  apply OrderedTypeEx.String_as_OT.cmp_lt.
  exact (OrderedTypeEx.String_as_OT.lt_trans _ _ _ Hab Hbc).
Qed.

Lemma string_compare_refl (a : string) : String.compare a a = Eq.
Proof. apply OrderedTypeEx.String_as_OT.cmp_eq. reflexivity. Qed.

(** [file_leb] as a lexicographic order on the four columns. *)
Lemma file_leb_spec (f g : File) :
  file_leb f g = true <->
  file_client_id f < file_client_id g
  \/ (file_client_id f = file_client_id g
      /\ (String.compare (file_camera f) (file_camera g) = Lt
          \/ (file_camera f = file_camera g
              /\ (String.compare (file_distance f) (file_distance g) = Lt
                  \/ (file_distance f = file_distance g /\ file_id f <= file_id g))))).
Proof.
  unfold file_leb.
  destruct (Z.compare_spec (file_client_id f) (file_client_id g)) as [Hc | Hc | Hc];
    [| split; [tauto | reflexivity] | split; [discriminate | lia]].
  destruct (String.compare (file_camera f) (file_camera g)) eqn:Hcam.
  - apply String.compare_eq_iff in Hcam.
    destruct (String.compare (file_distance f) (file_distance g)) eqn:Hd.
    + apply String.compare_eq_iff in Hd. rewrite Z.leb_le.
      intuition (try discriminate; try lia).
    + split; [tauto | reflexivity].
    + assert (file_distance f <> file_distance g).
      { intros E. rewrite E, string_compare_refl in Hd. discriminate. }
      intuition (try discriminate; try lia).
  - split; [tauto | reflexivity].
  - assert (file_camera f <> file_camera g).
    { intros E. rewrite E, string_compare_refl in Hcam. discriminate. }
    intuition (try discriminate; try lia).
Qed.

Lemma file_leb_total (f g : File) : file_leb f g = true \/ file_leb g f = true.
Proof.
  rewrite !file_leb_spec.
  destruct (Z.lt_trichotomy (file_client_id f) (file_client_id g)) as [H | [H | H]];
    [tauto | | tauto].
  destruct (String.compare (file_camera f) (file_camera g)) eqn:Hcam.
  - apply String.compare_eq_iff in Hcam.
    destruct (String.compare (file_distance f) (file_distance g)) eqn:Hd.
    + apply String.compare_eq_iff in Hd.
      destruct (Z.le_ge_cases (file_id f) (file_id g)).
      * left. tauto.
      * right. right. split; [congruence |]. right. split; [congruence |].
        right. split; [congruence | lia].
    + tauto.
    + apply string_compare_Gt in Hd. right. right. split; [congruence |].
      right. split; [congruence |]. left. exact Hd.
  - tauto.
  - apply string_compare_Gt in Hcam. right. right. split; [congruence |]. left. exact Hcam.
Qed.

Lemma file_leb_trans (f g h : File) :
  file_leb f g = true -> file_leb g h = true -> file_leb f h = true.
Proof.
  rewrite !file_leb_spec.
  intros [H1 | [H1 H1']] [H2 | [H2 H2']]; try (left; lia).
  right. split; [congruence |].
  destruct H1' as [C1 | [C1 D1]], H2' as [C2 | [C2 D2]].
  - left. exact (string_compare_Lt_trans _ _ _ C1 C2).
  - left. rewrite <- C2. exact C1.
  - left. rewrite C1. exact C2.
  - right. split; [congruence |].
    destruct D1 as [E1 | [E1 I1]], D2 as [E2 | [E2 I2]].
    + left. exact (string_compare_Lt_trans _ _ _ E1 E2).
    + left. rewrite <- E2. exact E1.
    + left. rewrite E1. exact E2.
    + right. split; [congruence | lia].
Qed.

Lemma StronglySorted_map {A B : Type} (R : B -> B -> Prop) (g : A -> B) (l : list A) :
  StronglySorted (fun x y => R (g x) (g y)) l -> StronglySorted R (map g l).
Proof.
  induction 1 as [| x l Hl IH Hx]; simpl; constructor; [exact IH |].
  apply Forall_forall. intros y Hy. apply in_map_iff in Hy. destruct Hy as [z [<- Hz]].
  rewrite Forall_forall in Hx. apply Hx. exact Hz.
Qed.

Lemma fetch_files_sorted (q : list FileRow) : file_sorted (fetch_files q).
Proof.
  unfold file_sorted, fetch_files. apply unique_by_sorted.
  apply StronglySorted_map with (R := fun f g => file_leb f g = true).
  apply Sorted_StronglySorted.
  - intros a b c. apply file_leb_trans.
  - apply order_by_sorted. intros a b. apply file_leb_total.
Qed.

(** The lists [tobjects] and [zobjects] return are in ascending order of
    owning client, then camera, then distance, then file identifier, and hold
    no file identifier twice. *)
Theorem cohorts_sorted (db : Database) (protocol : arg string) (model_ids : arg Z)
  (groups_ : arg string) (l : list File) :
  tobjects db protocol model_ids groups_ = Ok l
  \/ zobjects db protocol model_ids groups_ = Ok l ->
  file_sorted l /\ NoDup (map file_id l).
Proof.
  unfold tobjects, zobjects. intros H.
  assert (Hl : exists q, l = fetch_files q).
  { destruct (protocol_names db) as [vp | e]; cbn [bind] in H; [| destruct H; discriminate].
    destruct (check_validity protocol "protocol" vp vp) as [pr | e]; cbn [bind] in H;
      [| destruct H; discriminate].
    destruct (check_validity groups_ "group" groups groups) as [gr | e]; cbn [bind] in H;
      [| destruct H; discriminate].
    destruct (session_query db) as [s | e]; cbn [bind] in H; [| destruct H; discriminate].
    unfold cohort_files in H. destruct H as [H | H]; injection H as <-;
      eexists; reflexivity. }
  destruct Hl as [q ->]. split; [apply fetch_files_sorted | apply fetch_files_ids].
Qed.

(** The frontal images of the cohort of the small catalogue. *)
Lemma cohorts_sorted_witness :
  exists l, tobjects example_db Absent Absent Absent = Ok l
            /\ List.length l = 1%nat
            /\ file_sorted l /\ NoDup (map file_id l).
Proof.
  eexists. split; [vm_compute; reflexivity | split; [reflexivity |]].
  apply (cohorts_sorted example_db Absent Absent Absent). left. vm_compute. reflexivity.
Defined.

(** ** More on [paths] *)

Lemma paths_any_store (db : Database) (s : Store) (ids : list Z) (prefix suffix : string) :
  session db = Some s ->
  paths db ids prefix suffix = Ok (flat_map (paths_of (tbl_file s) prefix suffix) ids).
Proof.
  intros Hs. unfold paths, assert_validity, is_valid, session_query.
  rewrite Hs. simpl. rewrite extend_each_bound. simpl.
  f_equal. apply flat_map_ext_In. intros p Hp. unfold paths_of.
  rewrite filter_filter_In; [reflexivity |].
  intros k _ Hk. apply Z.eqb_eq in Hk. apply py_in_In. rewrite Hk. exact Hp.
Qed.

(** On a reachable store [paths] never fails; the paths of two lists of
    identifiers put end to end are the paths of the first followed by the
    paths of the second; and identifiers of no file are passed over in
    silence: a list of such identifiers, or the empty list, gives no path. *)
Theorem paths_compose (db : Database) (s : Store) (prefix suffix : string) :
  session db = Some s ->
  (forall ids1 ids2,
      exists l1 l2,
        paths db ids1 prefix suffix = Ok l1
        /\ paths db ids2 prefix suffix = Ok l2
        /\ paths db (ids1 ++ ids2) prefix suffix = Ok (l1 ++ l2))
  /\ (forall ids,
        (forall i, In i ids -> ~ In i (map file_id (tbl_file s))) ->
        paths db ids prefix suffix = Ok []).
Proof.
  intros Hs. split.
  - intros ids1 ids2. do 2 eexists.
    rewrite !(paths_any_store db s _ prefix suffix Hs), flat_map_app.
    repeat split; reflexivity.
  - intros ids Hids. rewrite (paths_any_store db s _ prefix suffix Hs). f_equal.
    induction ids as [| i ids IH]; simpl; [reflexivity |].
    rewrite IH; [| intros j Hj; apply Hids; right; exact Hj].
    unfold paths_of.
    change (fun k : File => Z.eqb (file_id k) i) with (fun k : File => py_eqb (file_id k) i).
    rewrite (filter_key_absent file_id (tbl_file s) i); [reflexivity |].
    apply Hids. left. reflexivity.
Qed.

Lemma paths_compose_witness :
  (exists l1 l2,
      paths example_db [6; 2] "" ".pgm" = Ok l1
      /\ paths example_db [2] "" ".pgm" = Ok l2
      /\ paths example_db ([6; 2] ++ [2]) "" ".pgm" = Ok (l1 ++ l2))
  /\ paths example_db [0; 7; 395] "" ".pgm" = Ok [].
Proof.
  destruct (paths_compose example_db example_store "" ".pgm" eq_refl) as [Happ Hnone].
  split; [apply Happ | apply Hnone].
  intros i Hi. vm_compute. simpl in Hi. intuition (subst; discriminate).
Defined.

(** ** Models *)

Lemma clients_retval_incl (s : Store) (gr sw ge : list string) (bys : list Z) (c : Client) :
  NoDup (map client_id (tbl_client s)) ->
  In c (clients_retval s gr sw ge bys) -> In c (tbl_client s).
Proof.
  intros Hnd Hc. apply in_clients_retval_branches in Hc.
  destruct Hc as [[_ Hc] | [_ Hc]].
  - apply (in_clients_world s sw ge bys c Hnd) in Hc. tauto.
  - apply (in_clients_other s gr ge bys c Hnd) in Hc. tauto.
Qed.

(** On a reachable store whose client identifiers are unique, every model
    [models] returns can be looked up again: the client identifier of its
    model id is known to [has_client_id], and [client] returns the model
    itself. *)
Theorem models_lookup_round_trip (db : Database) (s : Store) (protocol groups_ : arg string)
  (l : list Client) :
  session db = Some s ->
  NoDup (map client_id (tbl_client s)) ->
  models db protocol groups_ = Ok l ->
  forall c, In c l ->
            has_client_id db (get_client_id_from_model_id (client_id c)) = Ok true
            /\ client db (get_client_id_from_model_id (client_id c)) = Ok c.
Proof.
  intros Hs Hnd H c Hc. unfold models in H.
  destruct (clients_Ok db s _ _ _ _ _ l Hs H)
    as [pr [gr [sw [ge [bys [_ [_ [_ [_ [_ ->]]]]]]]]]].
  apply (clients_retval_incl s gr sw ge bys c Hnd) in Hc.
  unfold get_client_id_from_model_id, has_client_id, client.
  destruct (with_session db s Hs) as [Hv [Hq _]]. rewrite Hv, Hq. simpl.
  change (fun c0 : Client => Z.eqb (client_id c0) (client_id c))
    with (fun c0 : Client => py_eqb (client_id c0) (client_id c)).
  rewrite (filter_key_unique client_id (tbl_client s) c Hnd Hc).
  split; reflexivity.
Qed.

Lemma models_lookup_round_trip_witness :
  exists l, models example_db (Scalar "combined") (Scalar "dev") = Ok l
            /\ List.length l = 2%nat
            /\ forall c, In c l ->
                 has_client_id example_db (get_client_id_from_model_id (client_id c)) = Ok true
                 /\ client example_db (get_client_id_from_model_id (client_id c)) = Ok c.
Proof.
  eexists. split; [vm_compute; reflexivity | split; [reflexivity |]].
  apply (models_lookup_round_trip example_db example_store (Scalar "combined") (Scalar "dev")).
  - reflexivity.
  - exact example_store_client_ids.
  - vm_compute. reflexivity.
Defined.

(** ** Validation twice *)

(** A list the validator returned passes the validator again, unchanged,
    when the default is itself valid: validating is idempotent. *)
Theorem check_validity_idempotent {A : Type} `{PyValue A} (l : arg A) (obj : string)
  (valid default r : list A) :
  (forall k, In k default -> In k valid) ->
  check_validity l obj valid default = Ok r ->
  check_validity (Seq r) obj valid default = Ok r.
Proof.
  intros Hd Hr.
  assert (Hseq : forall xs, (forall k, In k xs -> In k valid) -> xs <> [] ->
                            check_validity (Seq xs) obj valid default = Ok xs).
  { intros xs Hxs Hne. destruct xs as [| x xs]; [congruence |].
    unfold check_validity, check_validity_seq. cbn [py_not].
    rewrite (check_each_Ok (x :: xs) obj valid Hxs). reflexivity. }
  destruct r as [| x r].
  - destruct (check_validity_valid l obj valid default [] Hr) as [<- | _].
    + reflexivity.
    + assert (Hdef : default = []).
      { unfold check_validity in Hr. destruct (py_not l) eqn:Hn;
          [injection Hr as ->; reflexivity |].
        unfold check_validity_seq in Hr.
        destruct l as [| a | xs]; [discriminate Hn | |].
        - cbn [py_not] in Hr. destruct (check_each [a] obj valid); discriminate Hr.
        - rewrite Hn in Hr. destruct (check_each xs obj valid); simpl in Hr;
            [injection Hr as ->; discriminate Hn | discriminate Hr]. }
      rewrite Hdef. reflexivity.
  - apply Hseq; [| discriminate].
    destruct (check_validity_valid l obj valid default (x :: r) Hr) as [<- | Hv];
      [exact Hd | exact Hv].
Qed.

Lemma check_validity_idempotent_witness :
  check_validity (Seq groups) "group" groups groups = Ok groups
  /\ check_validity (Seq [1985]) "birthyear" VALID_BIRTHYEARS [] = Ok [1985].
Proof.
  split.
  - apply (check_validity_idempotent Absent "group" groups groups);
      [tauto | reflexivity].
  - apply (check_validity_idempotent (Scalar 1985) "birthyear" VALID_BIRTHYEARS []).
    + simpl. tauto.
    + vm_compute. reflexivity.
Defined.
